(** * The OpenAI executor of llmvm (src/openai_executor.py) and its helpers

    A shallow embedding of [OpenAIExecutor]: the token budget
    ([max_tokens], [max_prompt_tokens]), the token counter
    ([calculate_tokens]), the validated dispatch ([execute_direct]) and the
    cached, normalising request lifecycle ([execute]).

    Python lists are mutable objects, so the caller's conversation and the
    outgoing [messages_list] live in a store of objects; exceptions and the
    two external effects (token counting with tiktoken, the remote call of
    the openai client) are threaded through a state-and-error monad whose
    state also records a trace of those effects.

    The helpers of src/helpers/websearch.py ([WebHelpers]) and
    src/helpers/edgar.py ([EdgarHelpers]) are pure once their services
    (pandoc, the search engine, the browser, sec_api) are given as
    functions; a Python [str] is the list of its code points. *)

From Stdlib Require Import ZArith Ascii String List PrimFloat.
From stdpp Require Import gmap strings list pretty.

Open Scope string_scope.
Open Scope Z_scope.
Open Scope list_scope.

#[local] Set Warnings "-register-all,-notation-for-abbreviation".

(** ** Message model (objects.py) *)

(** Modelled from the spec: objects.py (Content, Message, System, User,
    Assistant) is not among the sources.  Section 3 of the specification:
    a message is a tagged variant over the roles System, User and Assistant,
    each carrying content; an Assistant additionally carries an error flag,
    the context (the ordered messages that produced it) and the system
    message used.  [Content] wraps text, and [str] of it is that text. *)
Record Content := mkContent { text : string }.

(** Modelled from the spec: the classes System, User and Assistant of
    objects.py, as one tagged variant (section 3). *)
Inductive Message :=
| System (message : Content)
| User (message : Content)
| Assistant (message : Content) (error : bool)
            (messages_context : list Message)
            (system_context : option Message).

(** Modelled from the spec: [Assistant(message)] with the other keywords
    left out, as on the success path of [execute]: no error, and by default
    an empty context and no system message. *)
Definition Assistant_default (c : Content) : Message :=
  Assistant c false [] None.

Definition role (m : Message) : string :=
  match m with
  | System _ => "system"
  | User _ => "user"
  | Assistant _ _ _ _ => "assistant"
  end.

Definition message_of (m : Message) : Content :=
  match m with
  | System c | User c | Assistant c _ _ _ => c
  end.

Definition is_error (m : Message) : bool :=
  match m with
  | Assistant _ e _ _ => e
  | _ => false
  end.

(** A role/content dictionary, [Dict[str, str]]. *)
Notation Dict := (gmap string string).

(** Python exceptions that the executor can raise or let through. *)
Inductive Exn :=
| Exception (msg : string)
| IndexError
| KeyError (key : string)
| ValueError (msg : string)
| TypeError
| RemoteError (msg : string).

(** Modelled from the spec: [Message.to_dict] of objects.py, the
    [{role, content}] entry of the request contract (section 6). *)
Definition to_dict (m : Message) : Dict :=
  <["role" := role m]> (<["content" := text (message_of m)]> ∅).

(** Modelled from the spec: [Message.from_dict] of objects.py, the
    conversion of a role/content dictionary back into the message model
    (section 4.3, Normalize); a missing key or a role outside the three of
    the model is an error. *)
Definition from_dict (d : Dict) : Exn + Message :=
  match d !! "role" with
  | None => inl (KeyError "role")
  | Some r =>
      match d !! "content" with
      | None => inl (KeyError "content")
      | Some c =>
          if String.eqb r "user" then inr (User (mkContent c))
          else if String.eqb r "system" then inr (System (mkContent c))
          else if String.eqb r "assistant" then inr (Assistant_default (mkContent c))
          else inl (ValueError "role not found supported")
      end
  end.

(** ** Remote completion API (openai client) *)

Inductive Endpoint := ChatCompletion | Completion.

(** The keyword arguments of [openai.*.create]; [functions] is [None] when
    the keyword is not passed at all. *)
Record Request := mkRequest {
  req_endpoint : Endpoint;
  req_model : string;
  req_temperature : float;
  req_max_tokens : Z;
  req_functions : option (list Dict);
  req_messages : list Dict
}.

(** One entry of [choices]: the message dictionary read by
    [choice['message']], [None] when the entry has no [message]. *)
Record Choice := mkChoice { choice_message : option Dict }.

(** The response is a dictionary; [choices] holds a list, the other
    entries (id, model, ...) hold text. *)
Inductive Field :=
| FChoices (cs : list Choice)
| FOther (v : string).

Notation Response := (gmap string Field).

(** ** The store and the effect monad *)

Notation loc := positive.

(** Modelled from the spec: persistent_cache.py is not among the sources.
    By section 3 the key of an entry is a fingerprint of the input
    conversation, role and content in order, and the value is the resulting
    Assistant. *)
Notation Fingerprint := (list (string * string)).

Definition fingerprint (messages : list Message) : Fingerprint :=
  map (λ m, (role m, text (message_of m))) messages.

(** The objects that [execute] handles by reference: lists of messages (the
    caller's conversation), lists of dictionaries ([messages_list]) and the
    cache.  A Python list takes any element: a list of messages to which a
    dictionary has been appended is a list of both. *)
Inductive Obj :=
| OMessages (l : list Message)
| ODicts (l : list Dict)
| OCache (store : gmap Fingerprint Message)
| OMixed (l : list (Message + Dict)).

(** The shape of the argument of [calculate_tokens]. *)
Inductive TokenInput :=
| InMessages (l : list Message)
| InDicts (l : list Dict)
| InStr (s : string).

(** The steps of a call that the statements below observe: a token count
    (with the model whose tokenizer is used) and a remote call. *)
Inductive Event :=
| EvTokenCount (model : string) (input : TokenInput) (extra_str : string)
| EvDispatch (req : Request).

Record World := mkWorld {
  heap : gmap loc Obj;
  trace : list Event
}.

(** A computation ends with an exception or a value, in a new state. *)
Definition M (A : Type) : Type := World → (Exn + A) * World.

#[global] Instance M_ret : MRet M := λ A (a : A) w, (inr a, w).

#[global] Instance M_bind : MBind M := λ A B (f : A → M B) (m : M A) w,
  match m w with
  | (inl e, w') => (inl e, w')
  | (inr a, w') => f a w'
  end.

Definition raise {A} (e : Exn) : M A := λ w, (inl e, w).

Definition lift {A} (r : Exn + A) : M A := λ w, (r, w).

Definition emit (ev : Event) : M unit :=
  λ w, (inr tt, mkWorld (heap w) (trace w ++ [ev])).

(** The requests dispatched so far. *)
Definition dispatches (t : list Event) : list Request :=
  omap (λ ev, match ev with EvDispatch r => Some r | _ => None end) t.

(** The models of the token counts made so far. *)
Definition token_counts (t : list Event) : list string :=
  omap (λ ev, match ev with EvTokenCount m _ _ => Some m | _ => None end) t.

(** *** Objects of the store *)

(** Reading a name bound to a list of messages; on a list that holds a
    dictionary the uses of the elements as messages ([x.role()]) fail. *)
Definition read_messages (r : loc) : M (list Message) := λ w,
  match heap w !! r with
  | Some (OMessages l) => (inr l, w)
  | _ => (inl TypeError, w)
  end.

Definition read_dicts (r : loc) : M (list Dict) := λ w,
  match heap w !! r with
  | Some (ODicts l) => (inr l, w)
  | _ => (inl TypeError, w)
  end.

(** [messages_list = []]: a new list object, at an address no object has. *)
Definition new_list : M loc := λ w,
  let r := fresh (dom (heap w)) in
  (inr r, mkWorld (<[r := ODicts []]> (heap w)) (trace w)).

(** [l.append(d)]: the object is updated in place, whatever its elements
    are; only an object that is no list has no [append]. *)
Definition list_append (r : loc) (d : Dict) : M unit := λ w,
  match heap w !! r with
  | Some (ODicts l) => (inr tt, mkWorld (<[r := ODicts (l ++ [d])]> (heap w)) (trace w))
  | Some (OMessages l) =>
      (inr tt, mkWorld (<[r := OMixed (map inl l ++ [inr d])]> (heap w)) (trace w))
  | Some (OMixed l) =>
      (inr tt, mkWorld (<[r := OMixed (l ++ [inr d])]> (heap w)) (trace w))
  | _ => (inl TypeError, w)
  end.

(** [for x in l: body(x)] *)
Fixpoint for_each {A} (l : list A) (body : A → M unit) : M unit :=
  match l with
  | [] => mret tt
  | x :: l' => body x ;; for_each l' body
  end.

(** [[f(x) for x in l]] with a fallible [f]: the first failure is raised. *)
Fixpoint map_exn {A B} (f : A → Exn + B) (l : list A) : Exn + list B :=
  match l with
  | [] => inr []
  | x :: l' =>
      match f x with
      | inl e => inl e
      | inr y =>
          match map_exn f l' with
          | inl e => inl e
          | inr ys => inr (y :: ys)
          end
      end
  end.

(** [l[-1]] *)
Definition index_last {A} (l : list A) : Exn + A :=
  match last l with
  | Some x => inr x
  | None => inl IndexError
  end.

(** *** The cache object (persistent_cache.py) *)

(** Modelled from the spec: [PersistentCache.has_key], [get] and [set]
    (sections 4.2 and 6), a key-value store addressed by the fingerprint of
    the conversation. *)
Definition cache_has_key (c : loc) (key : list Message) : M bool := λ w,
  match heap w !! c with
  | Some (OCache store) => (inr (bool_decide (is_Some (store !! fingerprint key))), w)
  | _ => (inl TypeError, w)
  end.

(** Modelled from the spec: [PersistentCache.get]. *)
Definition cache_get (c : loc) (key : list Message) : M Message := λ w,
  match heap w !! c with
  | Some (OCache store) =>
      match store !! fingerprint key with
      | Some a => (inr a, w)
      | None => (inl (KeyError "cache"), w)
      end
  | _ => (inl TypeError, w)
  end.

(** Modelled from the spec: [PersistentCache.set]. *)
Definition cache_set (c : loc) (key : list Message) (value : Message) : M unit := λ w,
  match heap w !! c with
  | Some (OCache store) =>
      (inr tt, mkWorld (<[c := OCache (<[fingerprint key := value]> store)]> (heap w))
                       (trace w))
  | _ => (inl TypeError, w)
  end.

(** ** The executor *)

(** The attributes set by [__init__]; [cache] is [None] or the address of
    a cache object, which is truthy. *)
Record OpenAIExecutor := mkExecutor {
  openai_key : string;
  max_function_calls : Z;
  model : string;
  verbose : bool;
  cache : option loc
}.

(** The defaults of the parameters [model] and [temperature]. *)
Definition default_model : string := "gpt-3.5-turbo-16k-0613".

Definition default_temperature : float := 0x1.999999999999ap-3%float.

Definition max_tokens (self : OpenAIExecutor) : Z :=
  if String.eqb (model self) "gpt-3.5-turbo-16k-0613" then 16385
  else if String.eqb (model self) "gpt-3.5-turbo-16k" then 16385
  else 4096.

Definition max_prompt_tokens (self : OpenAIExecutor) (completion_token_count : Z) : Z :=
  max_tokens self - completion_token_count - 256.

Definition name (self : OpenAIExecutor) : string := "openai".

(** [last(predicate, iterable)] of [execute]. *)
Definition last_where {A} (predicate : A → bool) (iterable : list A) : option A :=
  let result := List.filter predicate iterable in
  last result.

(** ** Concrete collaborators

    A byte-level tokenizer, a plain serializer and scripted remote services,
    on which the definitions above can be run. *)
Module Demo.

(** One token per byte, for the models whose name starts with [gpt-]. *)
Definition byte_encoding (model : string) : option (string → list Z) :=
  if String.prefix "gpt-" model
  then Some (λ s, map (λ a, Z.of_nat (nat_of_ascii a)) (list_ascii_of_string s))
  else None.

Definition quote_mark : string := String (ascii_of_nat 34) EmptyString.

Definition quoted (s : string) : string := quote_mark +:+ s +:+ quote_mark.

Definition dump_dict (d : Dict) : string :=
  "{" +:+ String.concat ", "
            (map (λ kv, quoted kv.1 +:+ ": " +:+ quoted kv.2) (map_to_list d))
      +:+ "}".

Definition plain_dumps (l : list Dict) : string :=
  "[" +:+ String.concat ", " (map dump_dict l) +:+ "]".

Definition reply (content : string) : Response :=
  <["choices" := FChoices [mkChoice (Some (to_dict (Assistant_default (mkContent content))))]]>
    (<["model" := FOther "gpt-3.5-turbo-16k-0613"]> ∅).

(** A service that answers every request with one choice. *)
Definition answering (content : string) : list Event → Request → Exn + Response :=
  λ _ _, inr (reply content).

(** A service whose reply is the empty dictionary. *)
Definition silent : list Event → Request → Exn + Response :=
  λ _ _, inr ∅.

(** A service whose reply has a [choices] entry with no choice in it. *)
Definition choiceless_reply : Response :=
  <["choices" := FChoices []]> (<["model" := FOther "gpt-3.5-turbo-16k-0613"]> ∅).

Definition choiceless : list Event → Request → Exn + Response :=
  λ _ _, inr choiceless_reply.

Definition executor (m : string) (c : option loc) : OpenAIExecutor :=
  mkExecutor "sk-test" 5 m true c.

(** A store with the caller's conversation at address 1 and an empty
    cache at address 2. *)
Definition world (conversation : list Message) : World :=
  mkWorld (<[1%positive := OMessages conversation]> (<[2%positive := OCache ∅]> ∅)) [].

Definition conversation : list Message := [User (mkContent "What is 2+2?")].

Definition greeting : list Dict := [to_dict (User (mkContent "hi"))].

Definition search_function : Dict := <["name" := "search"]> ∅.

(** A service that answers every request with the given reply. *)
Definition replying (chat_response : Response) : list Event → Request → Exn + Response :=
  λ _ _, inr chat_response.

(** A service that fails on every request. *)
Definition failing : list Event → Request → Exn + Response :=
  λ _ _, inl (RemoteError "timeout").

(** A store like [world] whose cache holds [a] under the conversation. *)
Definition cached_world (conversation : list Message) (a : Message) : World :=
  mkWorld (<[1%positive := OMessages conversation]>
             (<[2%positive := OCache (<[fingerprint conversation := a]> ∅)]> ∅)) [].

End Demo.

(** * Python strings (builtins used by the helpers) *)

Module PyStr.

(** A Python [str]: the list of its code points. *)
Notation str := (list N).

(** A literal of ASCII characters. *)
Definition lit (s : string) : str := map N_of_ascii (list_ascii_of_string s).

(** The line boundaries of [str.splitlines]: line feed, vertical tab, form
    feed, carriage return, the file, group and record separators, next
    line, and the line and paragraph separators. *)
Definition line_boundary (c : N) : bool :=
  bool_decide (c ∈ [10; 11; 12; 13; 28; 29; 30; 133; 8232; 8233]%N).

(** [str.splitlines()]: [line] is the line read so far.  A carriage return
    followed by a line feed is one boundary; no empty line is reported
    after the last boundary. *)
Fixpoint splitlines_from (line : str) (s : str) : list str :=
  match s with
  | [] => match line with [] => [] | _ :: _ => [line] end
  | c :: rest =>
      if line_boundary c then
        match rest with
        | c' :: rest' =>
            if (c =? 13)%N && (c' =? 10)%N
            then line :: splitlines_from [] rest'
            else line :: splitlines_from [] rest
        | [] => line :: splitlines_from [] rest
        end
      else splitlines_from (line ++ [c]) rest
  end.

Definition splitlines (s : str) : list str := splitlines_from [] s.

(** [sep.join(l)] *)
Fixpoint join (sep : str) (l : list str) : str :=
  match l with
  | [] => []
  | [x] => x
  | x :: l' => x ++ sep ++ join sep l'
  end.

(** [s.startswith(p)] *)
Definition startswith (p s : str) : bool := bool_decide (p `prefix_of` s).

(** [needle in hay] *)
Fixpoint contains (needle hay : str) : bool :=
  startswith needle hay
  || match hay with
     | [] => false
     | _ :: hay' => contains needle hay'
     end.

(** The characters that [str.strip()] removes: those for which
    [str.isspace] holds. *)
Definition whitespace (c : N) : bool :=
  bool_decide (c ∈ [9; 10; 11; 12; 13; 28; 29; 30; 31; 32; 133; 160; 5760;
                    8232; 8233; 8239; 8287; 12288]%N)
  || ((8192 <=? c)%N && (c <=? 8202)%N).

(** [s.lstrip()] *)
Fixpoint lstrip (s : str) : str :=
  match s with
  | [] => []
  | c :: rest => if whitespace c then lstrip rest else s
  end.

(** [s.strip()] *)
Definition strip (s : str) : str := rev (lstrip (rev (lstrip s))).

(** [s.replace(old, new)] for a nonempty [old]: the occurrences are
    replaced from the left and do not overlap; [skip] counts the
    characters of an occurrence still to pass over. *)
Fixpoint replace_from (old new : str) (skip : nat) (s : str) : str :=
  match s with
  | [] => []
  | c :: rest =>
      match skip with
      | S n => replace_from old new n rest
      | O =>
          if startswith old (c :: rest)
          then new ++ replace_from old new (length old - 1) rest
          else c :: replace_from old new 0 rest
      end
  end.

Definition replace (old new s : str) : str := replace_from old new 0 s.

(** [s.rfind(c)] for a one-character string [c]: the last index of the
    character, or -1. *)
Definition rfind_char (c : N) (s : str) : Z :=
  match List.find (λ ic, (ic.2 =? c)%N) (rev (imap (λ i x, (i, x)) s)) with
  | Some (i, _) => Z.of_nat i
  | None => -1
  end.

(** [s[0:stop]]: a negative [stop] counts from the end. *)
Definition slice_to (stop : Z) (s : str) : str :=
  if bool_decide (0 ≤ stop) then take (Z.to_nat stop) s
  else take (Z.to_nat (Z.of_nat (length s) + stop)) s.

End PyStr.

(** * helpers/websearch.py *)

Module WebHelpers.
Import PyStr.

(** The lines that [clean_markdown] drops wherever they stand. *)
Definition junk_line (line : str) : bool :=
  (bool_decide (line = lit "<div>") || bool_decide (line = lit "</div>"))
  || (bool_decide (line = lit "[]") || bool_decide (line = lit "[[]]"))
  || (bool_decide (line = lit "*") || bool_decide (line = lit "* ")
      || bool_decide (line = lit " *"))
  || (bool_decide (line = lit "&starf;") || bool_decide (line = lit "&star;")
      || bool_decide (line = lit "&nbsp;")).

(** One turn of the loop of [clean_markdown], on the pair of [lines] and
    [blank_counter]. *)
Definition clean_step (state : list str * Z) (line : str) : list str * Z :=
  let '(lines, blank_counter) := state in
  if bool_decide (line = []) && bool_decide (blank_counter = 0) then
    (lines ++ [line], blank_counter + 1)
  else if bool_decide (line = []) && bool_decide (1 ≤ blank_counter) then
    (lines, blank_counter)
  else if bool_decide (line = lit "<div>") || bool_decide (line = lit "</div>") then
    (lines, blank_counter)
  else if bool_decide (line = lit "[]") || bool_decide (line = lit "[[]]") then
    (lines, blank_counter)
  else if bool_decide (line = lit "*") || bool_decide (line = lit "* ")
          || bool_decide (line = lit " *") then
    (lines, blank_counter)
  else if bool_decide (line = lit "&starf;") || bool_decide (line = lit "&star;")
          || bool_decide (line = lit "&nbsp;") then
    (lines, blank_counter)
  else
    (lines ++ [line], 0).

(** The list [lines] when the loop ends. *)
Definition clean_lines (markdown_text : str) : list str :=
  (fold_left clean_step (splitlines markdown_text) ([], 0)).1.

Definition clean_markdown (markdown_text : str) : str :=
  join [10%N] (clean_lines markdown_text).

(** A search result or a document of a filing, [Dict[str, str]] with text
    values. *)
Notation StrDict := (gmap string str).

(** [d[key]] *)
Definition item (key : string) (d : StrDict) : Exn + str :=
  match d !! key with
  | Some v => inr v
  | None => inl (KeyError key)
  end.

(** One turn of the loop of [convert_html_to_markdown] over the lines of
    the output of pandoc. *)
Definition pandoc_step (lines : list str) (line : str) : list str :=
  let stripped := strip line in
  if bool_decide (stripped ≠ []) then
    if bool_decide (stripped = lit "<div>") || bool_decide (stripped = lit "</div>") then
      lines
    else if bool_decide (stripped = lit "[]") || bool_decide (stripped = lit "[[]]") then
      lines
    else if startswith (lit "![](") stripped then
      lines
    else if startswith (lit "[]") stripped
            && bool_decide (strip (replace (lit "[]") [] stripped) = []) then
      lines
    else if startswith [91; 92]%N stripped
            && bool_decide (strip (replace [91; 92]%N [] stripped) = []) then
      lines
    else if startswith (lit "]") stripped
            && bool_decide (strip (replace (lit "]") [] stripped) = []) then
      lines
    else if startswith (lit "[") stripped
            && bool_decide (strip (replace (lit "[") [] stripped) = []) then
      lines
    else
      lines ++ [stripped]
  else lines.

(** [pandoc] is the output of the shell pipeline (pandoc, grep, sed) read
    by [os.popen(command).read()] for the html written to the temporary
    file. *)
Definition convert_html_to_markdown (pandoc : str → str) (html : str) : str :=
  let result := pandoc html in
  join [10%N] (fold_left pandoc_step (splitlines result) []).

(** One turn of the loop of [__search_helper]: every exception of the
    parser, and the missing [link] of a result, is passed over. *)
Definition search_step (parser : str → Exn + str)
    (return_results : list str) (result : StrDict) : list str :=
  match item "link" result with
  | inl _ => return_results
  | inr link =>
      match parser link with
      | inl _ => return_results
      | inr text => return_results ++ [text]
      end
  end.

Definition search_helper (query : str)
    (searcher : str → Exn + list StrDict) (parser : str → Exn + str) : Exn + str :=
  match searcher query with
  | inl e => inl e
  | inr search_results =>
      inr (join (lit " ") (fold_left (search_step parser) search_results []))
  end.

(** The loop of [search_linkedin_profile]: the link of the first result
    that contains [linkedin.com], if the loop returns. *)
Fixpoint linkedin_link (links : list StrDict) : Exn + option str :=
  match links with
  | [] => inr None
  | link :: rest =>
      match item "link" link with
      | inl e => inl e
      | inr url =>
          if contains (lit "linkedin.com") url then inr (Some url)
          else linkedin_link rest
      end
  end.

(** [search_internet] is the method of a [SerpAPISearcher] with a link
    limit of 1, and [get_linkedin_profile] the method of that name, which
    drives the browser. *)
Definition search_linkedin_profile
    (search_internet : str → Exn + list StrDict)
    (get_linkedin_profile : str → Exn + str)
    (first_name last_name company_name : str) : Exn + str :=
  match search_internet (first_name ++ lit " " ++ last_name ++ lit " " ++ company_name
                         ++ lit " site:linkedin.com/in/") with
  | inl e => inl e
  | inr links =>
      if bool_decide (0 < Z.of_nat (length links)) then
        match linkedin_link links with
        | inl e => inl e
        | inr (Some url) => get_linkedin_profile url
        | inr None =>
            match links with
            | [] => inl IndexError
            | first :: _ =>
                match item "link" first with
                | inl e => inl e
                | inr url => get_linkedin_profile url
                end
            end
        end
      else inr []
  end.

(** ** Vocabulary of the statements on [clean_markdown] *)

(** A line without line boundary. *)
Definition no_boundary (line : str) : Prop :=
  Forall (λ c, line_boundary c = false) line.

(** Two blank lines stand next to each other. *)
Fixpoint adjacent_blanks (l : list str) : bool :=
  match l with
  | [] => false
  | x :: rest =>
      match rest with
      | [] => false
      | y :: _ => (bool_decide (x = []) && bool_decide (y = [])) || adjacent_blanks rest
      end
  end.

(** A line that is neither blank nor dropped. *)
Definition kept_line (line : str) : bool :=
  negb (bool_decide (line = [])) && negb (junk_line line).

(** A list of lines without its last line, when that one is blank. *)
Definition without_final_blank (l : list str) : list str :=
  match last l with
  | Some [] => take (length l - 1) l
  | _ => l
  end.

(** What the loop of [clean_markdown] keeps true of [lines] and
    [blank_counter]. *)
Definition clean_invariant (state : list str * Z) : Prop :=
  (state.2 = 0 ∨ state.2 = 1)
  ∧ (state.2 = 1 ↔ last state.1 = Some [])
  ∧ adjacent_blanks state.1 = false
  ∧ Forall (λ line, junk_line line = false) state.1.

(** ** Vocabulary of the statements on the other helpers *)

(** What holds of every line that [convert_html_to_markdown] keeps. *)
Definition pandoc_line (line : str) : Prop :=
  line ≠ [] ∧ strip line = line
  ∧ line ≠ lit "<div>" ∧ line ≠ lit "</div>" ∧ line ≠ lit "[]" ∧ line ≠ lit "[[]]"
  ∧ startswith (lit "![](") line = false.

(** The text that [__search_helper] keeps of a result, if any. *)
Definition parsed_text (parser : str → Exn + str) (result : StrDict) : option str :=
  match item "link" result with
  | inl _ => None
  | inr link =>
      match parser link with
      | inl _ => None
      | inr text => Some text
      end
  end.

End WebHelpers.

(** * helpers/edgar.py *)

Module EdgarHelpers.
Import PyStr WebHelpers.

Inductive FormType := TENK | TENQ | EIGHTK | ANY.

#[global] Instance FormType_eq_dec : EqDecision FormType.
Proof. solve_decision. Defined.

(** The value of a member, which [__str__] returns. *)
Definition value (form_type : FormType) : str :=
  match form_type with
  | TENK => lit "10-K"
  | TENQ => lit "10-Q"
  | EIGHTK => lit "8-K"
  | ANY => lit "ANY"
  end.

(** [FormType(s)]: the member of that value; for any other text the enum
    raises a [ValueError], whose message (it quotes the text) is cut down
    to its fixed part. *)
Definition FormType_of (s : str) : Exn + FormType :=
  if bool_decide (s = lit "10-K") then inr TENK
  else if bool_decide (s = lit "10-Q") then inr TENQ
  else if bool_decide (s = lit "8-K") then inr EIGHTK
  else if bool_decide (s = lit "ANY") then inr ANY
  else inl (ValueError "is not a valid FormType").

(** The argument of [QueryApi.get_filings]: the query string, and the
    entries [from], [size] and the order of the sort on [filedAt]. *)
Record Query := mkQuery {
  query_string : str;
  query_from : str;
  query_size : str;
  query_sort_filedAt : str
}.

(** A filing of the reply: the entries that [get_form_urls] reads, absent
    when the reply lacks them. *)
Record Filing := mkFiling {
  periodOfReport : option str;
  documentFormatFiles : option (list StrDict)
}.

(** The reply of [QueryApi.get_filings], with its entry [filings]. *)
Record Filings := mkFilings { filings : option (list Filing) }.

(** A row of [get_form_urls]: period, description and url. *)
Notation Row := (str * str * str)%type.

(** The test on a document of a filing. *)
Definition wanted (document : StrDict) : bool :=
  match document !! "description" with
  | None => false
  | Some description =>
      contains (lit "10-Q") description
      || contains (lit "10-K") description
      || contains (lit "8-K") description
  end.

(** The inner loop of [get_form_urls], on the documents of one filing. *)
Fixpoint document_rows (filing : Filing) (documents : list StrDict)
    (rows : list Row) : Exn + list Row :=
  match documents with
  | [] => inr rows
  | document :: rest =>
      if wanted document then
        match periodOfReport filing with
        | None => inl (KeyError "periodOfReport")
        | Some period =>
            match item "description" document with
            | inl e => inl e
            | inr description =>
                match item "documentUrl" document with
                | inl e => inl e
                | inr url =>
                    document_rows filing rest (rows ++ [(period, description, url)])
                end
            end
        end
      else document_rows filing rest rows
  end.

(** The outer loop of [get_form_urls]. *)
Fixpoint filing_rows (l : list Filing) (rows : list Row) : Exn + list Row :=
  match l with
  | [] => inr rows
  | filing :: rest =>
      match documentFormatFiles filing with
      | None => inl (KeyError "documentFormatFiles")
      | Some documents =>
          match document_rows filing documents rows with
          | inl e => inl e
          | inr rows' => filing_rows rest rows'
          end
      end
  end.

(** A [dict] from text to text, in insertion order: [d[k] = v]. *)
Fixpoint dict_set (k v : str) (d : list (str * str)) : list (str * str) :=
  match d with
  | [] => [(k, v)]
  | (k', v') :: rest =>
      if bool_decide (k' = k) then (k', v) :: rest
      else (k', v') :: dict_set k v rest
  end.

Definition sections_10q : list str :=
  map lit ["part1item1"; "part1item2"; "part1item3"; "part1item4";
           "part2item1"; "part2item1a"; "part2item2"; "part2item3"; "part2item4";
           "part2item5"; "part2item6"].

Definition sections_10k : list str :=
  map lit ["1"; "1A"; "1B"; "2"; "3"; "4"; "5"; "6"; "7"; "7A"; "8"; "9"; "9A";
           "9B"; "10"; "11"; "12"; "13"; "14"].

(** ** Vocabulary of the statements on the rows *)

Definition row_description (row : Row) : str := row.1.2.

(** The sections that [get_form_text] extracts from a quarterly and from an
    annual form. *)
Definition catalog (form_type : FormType) : list str :=
  match form_type with
  | TENQ => sections_10q
  | TENK => sections_10k
  | _ => []
  end.

(** A description that passes the test of [get_form_urls]. *)
Definition names_a_form (description : str) : Prop :=
  contains (lit "10-Q") description || contains (lit "10-K") description
  || contains (lit "8-K") description = true.

Section Api.

(** [datetime] and [strftime('%Y-%m-%d')]; the defaults of [start_date] and
    [end_date], the second being the time at which the module was loaded. *)
Variable datetime : Type.
Variable strftime : datetime → str.
Variable default_start_date : datetime.
Variable default_end_date : datetime.

(** The services of sec_api, with the key of the environment:
    [QueryApi.get_filings], [ExtractorApi.get_section] and
    [RenderApi.get_filing], whose result may be [None]. *)
Variable get_filings : Query → Exn + Filings.
Variable get_section : str → str → str → Exn + str.
Variable render_get_filing : str → Exn + option str.

(** The attributes of the [a] elements that BeautifulSoup finds in a page,
    and [WebHelpers.convert_html_to_markdown]. *)
Variable find_all_a : str → list StrDict.
Variable convert_html_to_markdown : str → Exn + str.

Definition get_form_urls (ticker : str) (form_type : option FormType)
    (start_date end_date : datetime) : Exn + list Row :=
  let str_start_date := strftime start_date in
  let str_end_date := strftime end_date in
  let q := lit "ticker:" ++ ticker ++ lit " " in
  let q := q ++ lit "AND filedAt:{" ++ str_start_date ++ lit " TO " ++ str_end_date
             ++ lit "} " in
  let q :=
    match form_type with
    | Some form_type =>
        if bool_decide (form_type ≠ ANY)
        then q ++ lit "AND formType:" ++ [34%N] ++ value form_type ++ [34%N]
        else q
    | None => q
    end in
  match get_filings (mkQuery q (lit "0") (lit "10") (lit "desc")) with
  | inl e => inl e
  | inr result =>
      match filings result with
      | None => inl (KeyError "filings")
      | Some l => filing_rows l []
      end
  end.

(** The loop of [extract_form_text] on the dictionary [parts]. *)
Fixpoint extract_parts (url : str) (sections : list str) (type : str)
    (parts : list (str * str)) : Exn + list (str * str) :=
  match sections with
  | [] => inr parts
  | part :: rest =>
      match get_section url part type with
      | inl e => inl e
      | inr text => extract_parts url rest type (dict_set part text parts)
      end
  end.

Definition extract_form_text (url : str) (sections : list str) (type : str)
    : Exn + list (str * str) :=
  extract_parts url sections type [].

Definition get_form_filing (url : str) : Exn + str :=
  let url := replace (lit "ix?doc=/Archives") (lit "Archives") url in
  match render_get_filing url with
  | inl e => inl e
  | inr (Some text) => inr text
  | inr None => inr []
  end.

(** [form_type] is a member or, when a text is passed, its value. *)
Definition get_form_text (url : str) (form_type : FormType + str) : Exn + str :=
  match (match form_type with
         | inl member => inr member
         | inr text => FormType_of text
         end) with
  | inl e => inl e
  | inr TENQ =>
      match extract_form_text url sections_10q (lit "text") with
      | inl e => inl e
      | inr sections => inr (join [10%N] (map snd sections))
      end
  | inr TENK =>
      match extract_form_text url sections_10k (lit "text") with
      | inl e => inl e
      | inr sections => inr (join [10%N] (map snd sections))
      end
  | inr EIGHTK =>
      match get_form_filing url with
      | inl e => inl e
      | inr page =>
          let full_ref := slice_to (rfind_char 47 url) url in
          match map_exn (λ a, match item "href" a with
                              | inl e => inl e
                              | inr href => inr (full_ref ++ lit "/" ++ href)
                              end) (find_all_a page) with
          | inl e => inl e
          | inr hrefs =>
              match map_exn get_form_filing hrefs with
              | inl e => inl e
              | inr forms =>
                  match map_exn convert_html_to_markdown forms with
                  | inl e => inl e
                  | inr parsed => inr (join [10; 10]%N parsed)
                  end
              end
          end
      end
  | inr ANY => inr []
  end.

Definition get_latest_form_text (symbol : str) (form_type : FormType) : Exn + str :=
  match get_form_urls symbol (Some form_type) default_start_date default_end_date with
  | inl e => inl e
  | inr urls =>
      match urls with
      | [] => inr []
      | (_, _, url) :: _ => get_form_text url (inl form_type)
      end
  end.

Definition get_latest_filing (symbol : str) : Exn + str :=
  match get_form_urls symbol None default_start_date default_end_date with
  | inl e => inl e
  | inr urls =>
      match last urls with
      | None => inl IndexError
      | Some (_, description, latest_form) =>
          match FormType_of description with
          | inl e => inl e
          | inr form_type => get_form_text latest_form (inl form_type)
          end
      end
  end.

End Api.

Arguments get_form_urls {datetime}.
Arguments get_latest_form_text {datetime}.
Arguments get_latest_filing {datetime}.

End EdgarHelpers.

(** ** Concrete collaborators of the helpers

    Scripted search results and a scripted filing service, on which the
    helpers can be run. *)
Module HelperDemo.
Import PyStr WebHelpers EdgarHelpers.

Definition link_of (url : string) : StrDict := <["link" := lit url]> ∅.

(** Three search results, the second without a link. *)
Definition results : list StrDict :=
  [link_of "https://example.com/a"; <["title" := lit "untitled"]> ∅;
   link_of "https://www.linkedin.com/in/jane"].

Definition searcher : str → Exn + list StrDict := λ _, inr results.

(** A parser that fails on the pages of LinkedIn. *)
Definition parser (url : str) : Exn + str :=
  if contains (lit "linkedin.com") url then inl (Exception "login required")
  else inr (lit "text of " ++ url).

Definition profile_links : list StrDict :=
  [link_of "https://example.com/jane"; link_of "https://www.linkedin.com/in/jane"].

Definition profile_searcher : str → Exn + list StrDict := λ _, inr profile_links.

Definition profile (url : str) : Exn + str := inr (lit "profile at " ++ url).

(** A date is its year; [strftime] prints the first of January. *)
Definition strftime (year : Z) : str := lit (pretty year +:+ "-01-01").

(** A quarterly filing with its form and one exhibit. *)
Definition quarterly : Filing :=
  mkFiling (Some (lit "2023-03-31"))
           (Some [<["description" := lit "10-Q"]>
                    (<["documentUrl" := lit "https://www.sec.gov/Archives/q.htm"]> ∅);
                  <["description" := lit "EX-31.1"]>
                    (<["documentUrl" := lit "https://www.sec.gov/Archives/ex31.htm"]> ∅)]).

Definition get_filings : Query → Exn + Filings :=
  λ _, inr (mkFilings (Some [quarterly])).

Definition get_section (url part type : str) : Exn + str :=
  inr (part ++ lit " of " ++ url).

Definition render_get_filing (url : str) : Exn + option str := inr None.

Definition find_all_a (page : str) : list StrDict := [].

Definition to_markdown (html : str) : Exn + str := inr html.

End HelperDemo.

Section Executor.

(** tiktoken: [encoding_for_model(model)] is the tokenizer of a model
    ([None] when tiktoken knows no such model and raises [KeyError]),
    applied to a text by [encode]. *)
Variable encoding_for_model : string → option (string → list Z).

(** [json.dumps] on a list of dictionaries. *)
Variable json_dumps : list Dict → string.

(** The openai client: the reply to a request, which may depend on what
    happened before, or the error the call raises. *)
Variable openai_create : list Event → Request → Exn + Response.

Definition encode (model : string) (s : string) : Exn + Z :=
  match encoding_for_model model with
  | Some enc => inr (Z.of_nat (length (enc s)))
  | None => inl (KeyError model)
  end.

Definition calculate_tokens (self : OpenAIExecutor)
    (messages : TokenInput) (extra_str : string) : M Z :=
  emit (EvTokenCount (model self) messages extra_str) ;;
  match messages with
  | InMessages (m :: ms) =>
      let dict_messages := map to_dict (m :: ms) in
      let dict_messages := dict_messages ++ [to_dict (User (mkContent extra_str))] in
      lift (encode (model self) (json_dumps dict_messages))
  | InDicts (d :: ds) =>
      lift (encode (model self) (json_dumps (d :: ds)))
  | InMessages [] | InDicts [] =>
      lift (encode (model self) ("[]" +:+ extra_str))
  | InStr s =>
      lift (encode (model self) (s +:+ extra_str))
  end.

Definition prompt_too_long (message_tokens max_completion_tokens available : Z) : string :=
  "Prompt too long, message tokens: " +:+ pretty message_tokens
  +:+ ", completion tokens: " +:+ pretty max_completion_tokens
  +:+ " total tokens: " +:+ pretty (message_tokens + max_completion_tokens)
  +:+ ", available tokens: " +:+ pretty available.

(** [openai.ChatCompletion.create] and [openai.Completion.create]. *)
Definition create (req : Request) : M Response := λ w,
  (openai_create (trace w) req, mkWorld (heap w) (trace w ++ [EvDispatch req])).

Definition execute_direct (self : OpenAIExecutor)
    (messages : list Dict) (functions : list Dict) (model : string)
    (max_completion_tokens : Z) (temperature : float) (chat_format : bool)
    : M Response :=
  message_tokens ← calculate_tokens self (InDicts messages) "";
  if bool_decide (message_tokens > max_prompt_tokens self max_completion_tokens) then
    raise (Exception (prompt_too_long message_tokens max_completion_tokens (max_tokens self)))
  else if negb chat_format && bool_decide (Z.of_nat (length functions) > 0) then
    raise (Exception "Functions are not supported in non-chat format")
  else if chat_format then
    match functions with
    | _ :: _ =>
        create (mkRequest ChatCompletion model temperature max_completion_tokens
                          (Some functions) messages)
    | [] =>
        create (mkRequest ChatCompletion model temperature max_completion_tokens
                          None messages)
    end
  else
    create (mkRequest Completion model temperature max_completion_tokens
                      None messages).

Definition default_system_message : Message :=
  System (mkContent "You are a helpful assistant.").

Definition is_system (x : Message) : bool := String.eqb (role x) "system".

(** [chat_response['choices'][0]['message']]: on a text, [[0]] is its
    first character, which [['message']] cannot index, and fails on the
    empty text. *)
Definition first_choice_message (chat_response : Response) : Exn + Dict :=
  match chat_response !! "choices" with
  | None => inl (KeyError "choices")
  | Some (FOther v) => if bool_decide (v = "") then inl IndexError else inl TypeError
  | Some (FChoices []) => inl IndexError
  | Some (FChoices (c :: _)) =>
      match choice_message c with
      | Some message => inr message
      | None => inl (KeyError "message")
      end
  end.

(** [messages] is the caller's list object; every use of the name reads
    the object again.  A message object is truthy, so [not system_message]
    holds for [None] only.  Logging and the clock are left out: they have no
    effect on the result, except that the argument of the first log line,
    [messages[-1]], is evaluated. *)
Definition execute (self : OpenAIExecutor) (messages : loc)
    (temperature : float) (max_completion_tokens : Z) : M Message :=
  hit ← match cache self with
        | Some c => key ← read_messages messages; cache_has_key c key
        | None => mret false
        end;
  if (hit : bool) then
    match cache self with
    | Some c => key ← read_messages messages; cache_get c key
    | None => raise TypeError
    end
  else
    iterable ← read_messages messages;
    let system_message :=
      match last_where is_system iterable with
      | Some found => found
      | None => default_system_message
      end in
    msgs ← read_messages messages;
    _ ← lift (index_last msgs);
    messages_list ← new_list;
    list_append messages_list (to_dict system_message) ;;
    msgs ← read_messages messages;
    for_each (List.filter (λ m, negb (is_system m)) msgs)
             (λ message, list_append messages_list (to_dict message)) ;;
    outgoing ← read_dicts messages_list;
    chat_response ← execute_direct self outgoing [] default_model
                      max_completion_tokens temperature true;
    if bool_decide (size chat_response = 0%nat) then
      outgoing ← read_dicts messages_list;
      messages_context ← lift (map_exn from_dict outgoing);
      mret (Assistant (mkContent "The model could not execute the query.") true
                      messages_context (Some system_message))
    else
      reply ← lift (first_choice_message chat_response);
      list_append messages_list reply ;;
      outgoing ← read_dicts messages_list;
      conversation ← lift (map_exn from_dict outgoing);
      latest ← lift (index_last conversation);
      let assistant := Assistant (message_of latest) false conversation None in
      match cache self with
      | Some c => key ← read_messages messages; cache_set c key assistant
      | None => mret tt
      end ;;
      mret assistant.

(** ** Vocabulary of the statements *)

(** What survives the passage through a role/content dictionary: the role
    and the content; an Assistant comes back with the defaults. *)
Definition shallow (m : Message) : Message :=
  match m with
  | System c => System c
  | User c => User c
  | Assistant c _ _ _ => Assistant_default c
  end.

(** The request that a validated chat-format call dispatches. *)
Definition chat_request (messages functions : list Dict) (model : string)
    (max_completion_tokens : Z) (temperature : float) : Request :=
  mkRequest ChatCompletion model temperature max_completion_tokens
    (match functions with [] => None | _ :: _ => Some functions end) messages.

(** The system message that [execute] sends: the last one of the
    conversation, or the default. *)
Definition system_of (msgs : list Message) : Message :=
  match last_where is_system msgs with
  | Some found => found
  | None => default_system_message
  end.

(** The messages that [execute] sends, and their dictionaries. *)
Definition kept (msgs : list Message) : list Message :=
  system_of msgs :: List.filter (λ m, negb (is_system m)) msgs.

Definition outgoing (msgs : list Message) : list Dict := map to_dict (kept msgs).

(** A dictionary of the outgoing list is a system message when its role
    entry says so. *)
Definition dict_is_system (d : Dict) : bool :=
  bool_decide (d !! "role" = Some "system").

(** The trace once the outgoing messages have been counted. *)
Definition counted (self : OpenAIExecutor) (messages : list Dict) (t : list Event)
    : list Event :=
  t ++ [EvTokenCount (model self) (InDicts messages) ""].

(** The request that [execute] sends for a conversation: no field of it
    comes from the executor. *)
Definition sent_request (msgs : list Message) (temperature : float)
    (max_completion_tokens : Z) : Request :=
  mkRequest ChatCompletion "gpt-3.5-turbo-16k-0613" temperature max_completion_tokens
            None (outgoing msgs).

(** The object at [r] is [o]. *)
Definition holds (r : loc) (o : Obj) (w : World) : Prop :=
  heap w !! r = Some o.

(** A list object, of whatever elements. *)
Definition is_list (o : Obj) : Prop :=
  match o with
  | OCache _ => False
  | _ => True
  end.

(** A computation that, however it ends, leaves the object at [r] as it
    was. *)
Definition keeps {A} (r : loc) (o : Obj) (m : M A) : Prop :=
  ∀ w res w', holds r o w → m w = (res, w') → holds r o w'.

(** The store once [messages_list] has been built with content [l]. *)
Definition built (w : World) (l : list Dict) : World :=
  mkWorld (<[fresh (dom (heap w)) := ODicts l]> (heap w)) (trace w).

(** The cache of the executor, if it has one, holds nothing under the
    conversation. *)
Definition cache_miss (self : OpenAIExecutor) (msgs : list Message) (w : World) : Prop :=
  match cache self with
  | None => True
  | Some c => ∃ store, heap w !! c = Some (OCache store) ∧ store !! fingerprint msgs = None
  end.

(** The cache of the executor holds [a] under the conversation. *)
Definition cache_hit (self : OpenAIExecutor) (msgs : list Message) (a : Message) (w : World) : Prop :=
  ∃ c store, cache self = Some c ∧ heap w !! c = Some (OCache store)
             ∧ store !! fingerprint msgs = Some a.

(** The reply holds no choice: it has no [choices] entry, or an empty one. *)
Definition zero_choices (chat_response : Response) : Prop :=
  match chat_response !! "choices" with
  | Some (FChoices (_ :: _)) => False
  | _ => True
  end.

(** The reply holds no message of a first choice: it holds no choice, or
    its first choice has no [message] entry. *)
Definition no_first_message (chat_response : Response) : Prop :=
  match chat_response !! "choices" with
  | Some (FChoices (c :: _)) => choice_message c = None
  | _ => True
  end.


(** Storing the result under the conversation, when there is a cache. *)
Definition store_result (self : OpenAIExecutor) (msgs : list Message)
    (assistant : Message) (w : World) : World :=
  match cache self with
  | Some c =>
      match heap w !! c with
      | Some (OCache store) =>
          mkWorld (<[c := OCache (<[fingerprint msgs := assistant]> store)]> (heap w)) (trace w)
      | _ => w
      end
  | None => w
  end.

(** The miss path of [execute] in closed form, from the outcome of its call
    of [execute_direct]; [ml] is the address of [messages_list]. *)
Definition normalize (self : OpenAIExecutor) (msgs : list Message) (ml : loc)
    (direct : (Exn + Response) * World) : (Exn + Message) * World :=
  match direct with
  | (inl e, w2) => (inl e, w2)
  | (inr chat_response, w2) =>
      if bool_decide (size chat_response = 0%nat) then
        (inr (Assistant (mkContent "The model could not execute the query.") true
                        (map shallow (kept msgs)) (Some (system_of msgs))), w2)
      else
        match first_choice_message chat_response with
        | inl e => (inl e, w2)
        | inr reply =>
            let w3 := mkWorld (<[ml := ODicts (outgoing msgs ++ [reply])]> (heap w2))
                              (trace w2) in
            match from_dict reply with
            | inl e => (inl e, w3)
            | inr answer =>
                let conversation := map shallow (kept msgs) ++ [answer] in
                let assistant := Assistant (message_of answer) false conversation None in
                (inr assistant, store_result self msgs assistant w3)
            end
        end
  end.

(** * Properties *)

(** ** Running the monad *)

Lemma bind_inr {A B} (m : M A) (f : A → M B) w a w' :
  m w = (inr a, w') → (m ≫= f) w = f a w'.
Proof. intros H. unfold mbind, M_bind. by rewrite H. Qed.

Lemma bind_inl {A B} (m : M A) (f : A → M B) w e w' :
  m w = (inl e, w') → (m ≫= f) w = (inl e, w').
Proof. intros H. unfold mbind, M_bind. by rewrite H. Qed.

Lemma bind_inv {A B} (m : M A) (f : A → M B) w r w' :
  (m ≫= f) w = (r, w') →
  (∃ e, m w = (inl e, w') ∧ r = inl e) ∨ (∃ a w1, m w = (inr a, w1) ∧ f a w1 = (r, w')).
Proof.
  unfold mbind, M_bind. destruct (m w) as [[e|a] w1]; intros H.
  - left. exists e. by inversion H.
  - right. by exists a, w1.
Qed.

Lemma read_messages_run r l w :
  heap w !! r = Some (OMessages l) → read_messages r w = (inr l, w).
Proof. intros H. unfold read_messages. by rewrite H. Qed.

Lemma read_dicts_run r l w :
  heap w !! r = Some (ODicts l) → read_dicts r w = (inr l, w).
Proof. intros H. unfold read_dicts. by rewrite H. Qed.

Lemma list_append_run r l d w :
  heap w !! r = Some (ODicts l) →
  list_append r d w = (inr tt, mkWorld (<[r := ODicts (l ++ [d])]> (heap w)) (trace w)).
Proof. intros H. unfold list_append. by rewrite H. Qed.

Lemma new_list_fresh w o r :
  heap w !! r = Some o → fresh (dom (heap w)) ≠ r.
Proof.
  intros H Heq. apply (is_fresh (dom (heap w))).
  rewrite Heq. apply elem_of_dom. by exists o.
Qed.

(** The loop of appends extends the list object by the images, in order. *)
Lemma for_each_append {A} (f : A → Dict) (l : list A) : ∀ r xs w,
  heap w !! r = Some (ODicts xs) →
  for_each l (λ x, list_append r (f x)) w
  = (inr tt, mkWorld (<[r := ODicts (xs ++ map f l)]> (heap w)) (trace w)).
Proof.
  induction l as [|x l IH]; intros r xs w H; simpl.
  - rewrite app_nil_r, insert_id by done. by destruct w.
  - erewrite bind_inr by (by apply list_append_run).
    rewrite (IH r (xs ++ [f x])) by (simpl; apply lookup_insert_eq).
    simpl. by rewrite insert_insert_eq, <- app_assoc.
Qed.

Lemma index_last_nonempty {A} (l : list A) :
  l ≠ [] → ∃ y, index_last l = inr y ∧ last l = Some y.
Proof.
  intros Hne. unfold index_last. destruct (last l) as [y|] eqn:E; [by exists y|].
  by apply last_None in E.
Qed.

(** ** Messages and dictionaries *)

Lemma to_dict_role m : to_dict m !! "role" = Some (role m).
Proof. unfold to_dict. apply lookup_insert_eq. Qed.

Lemma to_dict_content m : to_dict m !! "content" = Some (text (message_of m)).
Proof. unfold to_dict. rewrite lookup_insert_ne by done. apply lookup_insert_eq. Qed.

Lemma from_dict_to_dict m : from_dict (to_dict m) = inr (shallow m).
Proof.
  unfold from_dict. rewrite to_dict_role, to_dict_content.
  by destruct m as [[c]|[c]|[c] e ctx s].
Qed.

Lemma to_dict_shallow m : to_dict (shallow m) = to_dict m.
Proof. by destruct m. Qed.

Lemma map_exn_from_dict l : map_exn from_dict (map to_dict l) = inr (map shallow l).
Proof.
  induction l as [|m l IH]; simpl; [done|].
  by rewrite from_dict_to_dict, IH.
Qed.

Lemma map_exn_app {A B} (f : A → Exn + B) l ys x y :
  map_exn f l = inr ys → f x = inr y → map_exn f (l ++ [x]) = inr (ys ++ [y]).
Proof.
  revert ys. induction l as [|a l IH]; simpl; intros ys Hl Hx.
  - inversion Hl. by rewrite Hx.
  - destruct (f a) as [e|b]; [done|].
    destruct (map_exn f l) as [e|bs]; [done|].
    inversion Hl. by rewrite (IH bs).
Qed.

Lemma map_exn_app_inl {A B} (f : A → Exn + B) l ys x e :
  map_exn f l = inr ys → f x = inl e → map_exn f (l ++ [x]) = inl e.
Proof.
  revert ys. induction l as [|a l IH]; simpl; intros ys Hl Hx.
  - by rewrite Hx.
  - destruct (f a) as [e'|b]; [done|].
    destruct (map_exn f l) as [e'|bs]; [done|].
    by rewrite (IH bs).
Qed.

(** ** The token counter and the validated dispatch *)

(** Counting leaves the store alone and records one count. *)
Lemma calculate_tokens_world self input extra w r w1 :
  calculate_tokens self input extra w = (r, w1) →
  w1 = mkWorld (heap w) (trace w ++ [EvTokenCount (model self) input extra]).
Proof.
  unfold calculate_tokens, emit, lift, mbind, M_bind.
  destruct input as [[|m ms]|[|d ds]|s]; intros H; by inversion H.
Qed.

Lemma dispatches_app t1 t2 : dispatches (t1 ++ t2) = dispatches t1 ++ dispatches t2.
Proof. unfold dispatches. apply omap_app. Qed.

Lemma token_counts_app t1 t2 : token_counts (t1 ++ t2) = token_counts t1 ++ token_counts t2.
Proof. unfold token_counts. apply omap_app. Qed.

Lemma prompt_check n c self :
  bool_decide (n > max_prompt_tokens self c) = bool_decide (n + c + 256 > max_tokens self).
Proof. unfold max_prompt_tokens. apply bool_decide_ext. lia. Qed.

Lemma execute_direct_too_long self messages functions m c t chat w n w1 :
  calculate_tokens self (InDicts messages) "" w = (inr n, w1) →
  n + c + 256 > max_tokens self →
  execute_direct self messages functions m c t chat w
  = (inl (Exception (prompt_too_long n c (max_tokens self))), w1).
Proof.
  intros Hn Hgt. unfold execute_direct.
  erewrite bind_inr by exact Hn.
  rewrite prompt_check, bool_decide_eq_true_2 by done. done.
Qed.

Lemma execute_direct_chat self messages functions m c t w n w1 :
  calculate_tokens self (InDicts messages) "" w = (inr n, w1) →
  n + c + 256 ≤ max_tokens self →
  execute_direct self messages functions m c t true w
  = create (chat_request messages functions m c t) w1.
Proof.
  intros Hn Hle. unfold execute_direct.
  erewrite bind_inr by exact Hn.
  rewrite prompt_check, bool_decide_eq_false_2 by lia. simpl.
  unfold chat_request. by destruct functions.
Qed.

(** Whatever it returns, [execute_direct] changes no object of the store
    and adds to the trace one count and at most one dispatch; a response
    comes from a dispatch only. *)
Lemma execute_direct_world self messages functions m c t chat w r w' :
  execute_direct self messages functions m c t chat w = (r, w') →
  let counted := counted self messages (trace w) in
  heap w' = heap w ∧
  ((trace w' = counted ∧ ∃ e, r = inl e)
   ∨ ∃ req, trace w' = counted ++ [EvDispatch req] ∧ r = openai_create counted req
            ∧ req_model req = m ∧ req_messages req = messages
            ∧ req_temperature req = t ∧ req_max_tokens req = c
            ∧ (chat = true → req = chat_request messages functions m c t)).
Proof.
  unfold execute_direct. intros H. cbv zeta. unfold counted.
  set (t1 := trace w ++ [EvTokenCount (model self) (InDicts messages) ""]).
  apply bind_inv in H as [(e & H & ->)|(n & w1 & H & Hk)];
    apply calculate_tokens_world in H as Hw.
  { subst w'. split; [done|]. left. eauto. }
  assert (Hsent : ∀ req, create req w1 = (r, w') →
            heap w' = heap w ∧ trace w' = t1 ++ [EvDispatch req]
            ∧ r = openai_create t1 req).
  { intros req Hc. unfold create in Hc. rewrite Hw in Hc. cbn [heap trace] in Hc.
    by inversion Hc. }
  destruct (bool_decide _).
  { inversion Hk. subst. split; [done|]. left. eauto. }
  destruct chat; simpl in Hk.
  - destruct functions as [|f fs];
      destruct (Hsent _ Hk) as (Hh & Ht & Hres); (split; [exact Hh|]);
      right; eexists; (split; [exact Ht|]); simpl; auto 10.
  - destruct (bool_decide _); simpl in Hk.
    { inversion Hk. subst. split; [done|]. left. eauto. }
    destruct (Hsent _ Hk) as (Hh & Ht & Hres). split; [exact Hh|].
    right; eexists; (split; [exact Ht|]); simpl.
    repeat split; auto. discriminate.
Qed.

(** ** The miss path of [execute] *)

Lemma execute_miss self r temp mct w msgs :
  heap w !! r = Some (OMessages msgs) → msgs ≠ [] → cache_miss self msgs w →
  execute self r temp mct w
  = normalize self msgs (fresh (dom (heap w)))
      (execute_direct self (outgoing msgs) [] default_model mct temp true
                      (built w (outgoing msgs))).
Proof.
  intros Hr Hne Hmiss. unfold execute.
  assert (Hhit : (match cache self with
                  | Some c => key ← read_messages r; cache_has_key c key
                  | None => mret false
                  end) w = (inr false, w)).
  { unfold cache_miss in Hmiss. destruct (cache self) as [c|]; [|done].
    destruct Hmiss as (store & Hc & Hnone).
    erewrite bind_inr by (by apply read_messages_run).
    unfold cache_has_key. rewrite Hc, Hnone.
    rewrite bool_decide_eq_false_2; [done|]. by intros [? ?]. }
  erewrite bind_inr by exact Hhit. cbv beta iota zeta.
  erewrite bind_inr by (by apply read_messages_run). cbv beta iota zeta.
  fold (system_of msgs).
  erewrite bind_inr by (by apply read_messages_run). cbv beta iota zeta.
  destruct (index_last_nonempty msgs Hne) as (y & Hy & _).
  erewrite (bind_inr (lift _)) by (unfold lift; by rewrite Hy). cbv beta iota zeta.
  erewrite (bind_inr new_list) by reflexivity. cbv beta iota zeta.
  set (ml := fresh (dom (heap w))).
  assert (Hml : ml ≠ r) by (by eapply new_list_fresh).
  erewrite bind_inr by (apply list_append_run; cbn [heap]; apply lookup_insert_eq).
  cbv beta iota zeta. cbn [heap trace]. rewrite insert_insert_eq.
  erewrite bind_inr
    by (apply read_messages_run; cbn [heap]; rewrite lookup_insert_ne by done; exact Hr).
  cbv beta iota zeta.
  erewrite bind_inr by (apply for_each_append; cbn [heap]; apply lookup_insert_eq).
  cbv beta iota zeta. cbn [heap trace]. rewrite insert_insert_eq.
  change ([] ++ [to_dict (system_of msgs)]
          ++ map to_dict (List.filter (λ m, negb (is_system m)) msgs))
    with (outgoing msgs).
  change (mkWorld (<[ml := ODicts (outgoing msgs)]> (heap w)) (trace w))
    with (built w (outgoing msgs)).
  erewrite bind_inr by (apply read_dicts_run; cbn [heap]; apply lookup_insert_eq).
  cbv beta iota zeta.
  destruct (execute_direct self (outgoing msgs) [] default_model mct temp true
              (built w (outgoing msgs))) as [[e|chat_response] w2] eqn:Hd.
  { by erewrite bind_inl by exact Hd. }
  erewrite bind_inr by exact Hd. cbv beta iota zeta.
  apply execute_direct_world in Hd as Hw2. cbv zeta in Hw2. destruct Hw2 as [Hheap _].
  assert (Hlist : heap w2 !! ml = Some (ODicts (outgoing msgs))).
  { rewrite Hheap. simpl. apply lookup_insert_eq. }
  unfold normalize. destruct (bool_decide (size chat_response = 0%nat)).
  { erewrite bind_inr by (by apply read_dicts_run). cbv beta iota zeta.
    erewrite (bind_inr (lift _)) by (unfold lift, outgoing; by rewrite map_exn_from_dict).
    done. }
  destruct (first_choice_message chat_response) as [e|reply] eqn:Hreply.
  { by erewrite (bind_inl (lift _)) by reflexivity. }
  erewrite (bind_inr (lift _)) by reflexivity. cbv beta iota zeta.
  erewrite bind_inr by (by apply list_append_run). cbv beta iota zeta.
  erewrite bind_inr by (apply read_dicts_run; cbn [heap]; apply lookup_insert_eq).
  cbv beta iota zeta.
  destruct (from_dict reply) as [e|answer] eqn:Hanswer.
  { erewrite (bind_inl (lift _)); [done|]. unfold lift, outgoing.
    by erewrite map_exn_app_inl by (apply map_exn_from_dict || exact Hanswer). }
  erewrite (bind_inr (lift _))
    by (unfold lift, outgoing;
        by erewrite map_exn_app by (apply map_exn_from_dict || exact Hanswer)).
  cbv beta iota zeta.
  erewrite (bind_inr (lift _))
    by (unfold lift, index_last; by rewrite last_snoc).
  cbv beta iota zeta.
  fold (outgoing msgs). unfold store_result, cache_miss in *.
  destruct (cache self) as [c|]; [|done].
  destruct Hmiss as (store & Hc & _).
  assert (Hcache : ∀ l, (<[ml := ODicts l]> (heap w2) : gmap loc Obj) !! c
                        = Some (OCache store)).
  { intros l. rewrite lookup_insert_ne by (by eapply new_list_fresh).
    rewrite Hheap. cbn [built heap].
    by rewrite lookup_insert_ne by (by eapply new_list_fresh). }
  cbn [heap]. rewrite Hcache.
  erewrite bind_inr; [reflexivity|].
  erewrite bind_inr
    by (apply read_messages_run; cbn [heap]; rewrite lookup_insert_ne by done;
        rewrite Hheap; cbn [built heap]; rewrite lookup_insert_ne by done; exact Hr).
  unfold cache_set. cbn [heap trace]. by rewrite Hcache.
Qed.

(** A hit returns the stored value and changes nothing. *)
Lemma execute_hit self r temp mct w msgs a :
  heap w !! r = Some (OMessages msgs) → cache_hit self msgs a w →
  execute self r temp mct w = (inr a, w).
Proof.
  intros Hr (c & store & Hself & Hc & Ha). unfold execute. rewrite Hself.
  erewrite bind_inr; [|erewrite bind_inr by (by apply read_messages_run);
                       unfold cache_has_key; rewrite Hc, Ha; reflexivity].
  rewrite bool_decide_eq_true_2 by eauto.
  erewrite bind_inr by (by apply read_messages_run).
  unfold cache_get. by rewrite Hc, Ha.
Qed.

(** On the empty conversation the argument of the first log line,
    [messages[-1]], raises before [messages_list] exists. *)
Lemma execute_miss_empty self r temp mct w :
  heap w !! r = Some (OMessages []) → cache_miss self [] w →
  execute self r temp mct w = (inl IndexError, w).
Proof.
  intros Hr Hmiss. unfold execute.
  assert (Hhit : (match cache self with
                  | Some c => key ← read_messages r; cache_has_key c key
                  | None => mret false
                  end) w = (inr false, w)).
  { unfold cache_miss in Hmiss. destruct (cache self) as [c|]; [|done].
    destruct Hmiss as (store & Hc & Hnone).
    erewrite bind_inr by (by apply read_messages_run).
    unfold cache_has_key. rewrite Hc, Hnone.
    rewrite bool_decide_eq_false_2; [done|]. by intros [? ?]. }
  erewrite bind_inr by exact Hhit. cbv beta iota zeta.
  erewrite bind_inr by (by apply read_messages_run). cbv beta iota zeta.
  erewrite bind_inr by (by apply read_messages_run). cbv beta iota zeta.
  by erewrite (bind_inl (lift _)) by reflexivity.
Qed.

(** Normalizing adds nothing to the trace. *)
Lemma normalize_trace self msgs ml direct :
  trace (normalize self msgs ml direct).2 = trace direct.2.
Proof.
  destruct direct as [[e|resp] w2]; simpl; [done|].
  destruct (bool_decide _); [done|].
  destruct (first_choice_message resp); [done|].
  destruct (from_dict _); [done|]. simpl.
  unfold store_result. destruct (cache self); [|done]. simpl.
  by destruct (_ !! _) as [[]|].
Qed.

(** ** The token budget *)

(** C7: [max_prompt_tokens] is [max_tokens] minus the reserved completion
    tokens minus 256, and [max_tokens] is 16385 for the two recognized
    gpt-3.5-turbo-16k identifiers and 4096 for every other model. *)
Theorem max_prompt_tokens_budget (self : OpenAIExecutor) (completion_token_count : Z) :
  max_prompt_tokens self completion_token_count
  = max_tokens self - completion_token_count - 256
  ∧ max_tokens self
    = if bool_decide (model self = "gpt-3.5-turbo-16k-0613"
                      ∨ model self = "gpt-3.5-turbo-16k")
      then 16385 else 4096.
Proof.
  split; [reflexivity|]. unfold max_tokens.
  destruct (String.eqb_spec (model self) "gpt-3.5-turbo-16k-0613") as [E1|N1].
  { rewrite bool_decide_eq_true_2; auto. }
  destruct (String.eqb_spec (model self) "gpt-3.5-turbo-16k") as [E2|N2].
  { rewrite bool_decide_eq_true_2; auto. }
  rewrite bool_decide_eq_false_2; [done|]. by intros [?|?].
Qed.

(** ** The token counter *)

(** The count of a nonempty list of messages covers [extra_str], as the
    content of a trailing user message. *)
Lemma calculate_tokens_messages self m ms extra_str w :
  (calculate_tokens self (InMessages (m :: ms)) extra_str w).1
  = encode (model self)
      (json_dumps (map to_dict (m :: ms) ++ [to_dict (User (mkContent extra_str))])).
Proof. reflexivity. Qed.

(** The count of a string covers [extra_str], appended to it. *)
Lemma calculate_tokens_str self s extra_str w :
  (calculate_tokens self (InStr s) extra_str w).1
  = encode (model self) (s +:+ extra_str).
Proof. reflexivity. Qed.

(** C8: the count of a nonempty list of role/content dictionaries is the
    count of the serialized list alone: [extra_str] is not appended, so two
    calls that differ in [extra_str] only return the same count. *)
Theorem calculate_tokens_dicts_ignores_extra_str self d ds (extra_str other : string) w :
  (calculate_tokens self (InDicts (d :: ds)) extra_str w).1
  = encode (model self) (json_dumps (d :: ds))
  ∧ (calculate_tokens self (InDicts (d :: ds)) extra_str w).1
    = (calculate_tokens self (InDicts (d :: ds)) other w).1.
Proof. split; reflexivity. Qed.

(** ** Validation and dispatch in [execute_direct] *)

(** C2: when the measured tokens plus the requested completion tokens plus
    256 exceed [max_tokens], [execute_direct] raises the prompt-too-long
    exception, whose text carries the measured count, the requested
    completion tokens, their sum and the budget of the model, and nothing is
    dispatched. *)
Theorem execute_direct_prompt_too_long self messages functions m
    (max_completion_tokens : Z) t chat w (message_tokens : Z) w1 :
  calculate_tokens self (InDicts messages) "" w = (inr message_tokens, w1) →
  message_tokens + max_completion_tokens + 256 > max_tokens self →
  execute_direct self messages functions m max_completion_tokens t chat w
  = (inl (Exception
            ("Prompt too long, message tokens: " +:+ pretty message_tokens
             +:+ ", completion tokens: " +:+ pretty max_completion_tokens
             +:+ " total tokens: " +:+ pretty (message_tokens + max_completion_tokens)
             +:+ ", available tokens: " +:+ pretty (max_tokens self))), w1)
  ∧ dispatches (trace w1) = dispatches (trace w).
Proof.
  intros Hn Hgt. split.
  - by apply execute_direct_too_long.
  - apply calculate_tokens_world in Hn. subst w1. simpl.
    rewrite dispatches_app. simpl. apply app_nil_r.
Qed.

(** C5: a call in the non-chat format with a nonempty list of functions,
    whose messages fit the budget, raises the unsupported-format exception
    and dispatches nothing. *)
Theorem execute_direct_functions_non_chat self messages functions m
    (max_completion_tokens : Z) t w (message_tokens : Z) w1 :
  calculate_tokens self (InDicts messages) "" w = (inr message_tokens, w1) →
  message_tokens + max_completion_tokens + 256 ≤ max_tokens self →
  functions ≠ [] →
  execute_direct self messages functions m max_completion_tokens t false w
  = (inl (Exception "Functions are not supported in non-chat format"), w1)
  ∧ dispatches (trace w1) = dispatches (trace w).
Proof.
  intros Hn Hle Hf. split.
  - unfold execute_direct. erewrite bind_inr by exact Hn.
    rewrite prompt_check, bool_decide_eq_false_2 by lia.
    destruct functions as [|f fs]; [done|].
    rewrite bool_decide_eq_true_2; [done|]. simpl length. lia.
  - apply calculate_tokens_world in Hn. subst w1. simpl.
    rewrite dispatches_app. simpl. apply app_nil_r.
Qed.

(** C6: a chat-format call that passes validation dispatches exactly one
    request, to the chat endpoint; the request has a [functions] entry if
    and only if the supplied list is nonempty, and the entry is then the
    supplied list: an empty list is never sent. *)
Theorem execute_direct_functions_field self messages functions m
    (max_completion_tokens : Z) t w (message_tokens : Z) w1 :
  calculate_tokens self (InDicts messages) "" w = (inr message_tokens, w1) →
  message_tokens + max_completion_tokens + 256 ≤ max_tokens self →
  ∃ req,
    execute_direct self messages functions m max_completion_tokens t true w
    = (openai_create (trace w1) req, mkWorld (heap w1) (trace w1 ++ [EvDispatch req]))
    ∧ dispatches (trace w1 ++ [EvDispatch req]) = dispatches (trace w) ++ [req]
    ∧ req_endpoint req = ChatCompletion
    ∧ req_messages req = messages
    ∧ (is_Some (req_functions req) ↔ functions ≠ [])
    ∧ (∀ fs, req_functions req = Some fs → fs = functions)
    ∧ req_functions req ≠ Some [].
Proof.
  intros Hn Hle. exists (chat_request messages functions m max_completion_tokens t).
  split; [by erewrite execute_direct_chat|].
  split.
  { apply calculate_tokens_world in Hn. subst w1. simpl.
    rewrite !dispatches_app. simpl. by rewrite app_nil_r. }
  destruct functions as [|f fs]; simpl; repeat split; try done.
  by intros fs' [= <-].
Qed.

(** ** The caller's list is only read *)

(** An append changes the list it is applied to, also a list of messages:
    the caller's list would not survive one. *)
Lemma list_append_in_place r msgs d w :
  heap w !! r = Some (OMessages msgs) →
  ∃ w', list_append r d w = (inr tt, w')
        ∧ heap w' !! r = Some (OMixed (map inl msgs ++ [inr d]))
        ∧ heap w' !! r ≠ Some (OMessages msgs).
Proof.
  intros H. unfold list_append. rewrite H. eexists. split; [done|].
  cbn [heap]. rewrite lookup_insert_eq. by split.
Qed.

Lemma keeps_bind {A B} r o (m : M A) (f : A → M B) :
  keeps r o m → (∀ a, keeps r o (f a)) → keeps r o (m ≫= f).
Proof.
  intros Hm Hf w res w' Hw H.
  apply bind_inv in H as [(e & H & _)|(a & w1 & H & Hk)].
  - by eapply Hm.
  - eapply Hf; [|exact Hk]. by eapply Hm.
Qed.

(** Computations that return the store they were given. *)
Lemma keeps_same {A} r o (m : M A) :
  (∀ w, (m w).2 = w) → keeps r o m.
Proof. intros Hm w res w' Hw H. specialize (Hm w). rewrite H in Hm. by subst. Qed.

Lemma keeps_ret {A} r o (a : A) : keeps r o (mret a).
Proof. by apply keeps_same. Qed.

Lemma keeps_raise {A} r o e : keeps r o (raise (A := A) e).
Proof. by apply keeps_same. Qed.

Lemma keeps_lift {A} r o (x : Exn + A) : keeps r o (lift x).
Proof. by apply keeps_same. Qed.

Lemma keeps_read_messages r o r' : keeps r o (read_messages r').
Proof.
  apply keeps_same. intros w. unfold read_messages. by destruct (_ !! _) as [[]|].
Qed.

Lemma keeps_read_dicts r o r' : keeps r o (read_dicts r').
Proof.
  apply keeps_same. intros w. unfold read_dicts. by destruct (_ !! _) as [[]|].
Qed.

Lemma keeps_cache_has_key r o c key : keeps r o (cache_has_key c key).
Proof.
  apply keeps_same. intros w. unfold cache_has_key. by destruct (_ !! _) as [[]|].
Qed.

Lemma keeps_cache_get r o c key : keeps r o (cache_get c key).
Proof.
  apply keeps_same. intros w. unfold cache_get.
  destruct (_ !! _) as [[| |store|]|]; try done. by destruct (_ !! _).
Qed.

(** The new list is at an address of its own: what follows its creation
    has an address that differs from that of every object there was. *)
Lemma keeps_new_list {B} r o (f : loc → M B) :
  (∀ messages_list, messages_list ≠ r → keeps r o (f messages_list)) →
  keeps r o (new_list ≫= f).
Proof.
  intros Hf w res w' Hw H. unfold mbind, M_bind, new_list in H.
  assert (Hfresh : fresh (dom (heap w)) ≠ r) by (by eapply new_list_fresh).
  eapply (Hf _ Hfresh); [|exact H].
  unfold holds. cbn [heap]. by rewrite lookup_insert_ne.
Qed.

(** An append changes the object it is applied to, and no other. *)
Lemma keeps_list_append r o r' d : r' ≠ r → keeps r o (list_append r' d).
Proof.
  intros Hne w res w' Hw H. unfold list_append in H.
  destruct (heap w !! r') as [[l|l|store|l]|] eqn:E; inversion H; subst; try done;
    unfold holds; cbn [heap]; by rewrite lookup_insert_ne.
Qed.

(** Only a cache is written to by [set]. *)
Lemma keeps_cache_set r o c key value : is_list o → keeps r o (cache_set c key value).
Proof.
  intros Ho w res w' Hw H. unfold cache_set in H.
  destruct (heap w !! c) as [[| |store|]|] eqn:E; inversion H; subst; try done.
  unfold holds. cbn [heap]. rewrite lookup_insert_ne; [done|].
  intros ->. unfold holds in Hw. rewrite E in Hw. injection Hw as <-. done.
Qed.

Lemma keeps_for_each {A} r o (l : list A) (body : A → M unit) :
  (∀ x, keeps r o (body x)) → keeps r o (for_each l body).
Proof.
  intros Hbody. induction l as [|x l IH]; simpl.
  - apply keeps_ret.
  - apply keeps_bind; [apply Hbody|]. by intros _.
Qed.

Lemma keeps_execute_direct r o self messages functions m c t chat :
  keeps r o (execute_direct self messages functions m c t chat).
Proof.
  intros w res w' Hw H. apply execute_direct_world in H as [Hheap _].
  unfold holds in *. by rewrite Hheap.
Qed.

Create HintDb keeps.

#[local] Hint Resolve keeps_ret keeps_raise keeps_lift keeps_read_messages
  keeps_read_dicts keeps_cache_has_key keeps_cache_get
  keeps_list_append keeps_cache_set keeps_execute_direct : keeps.

Ltac keeps_step :=
  lazymatch goal with
  | |- keeps _ _ (new_list ≫= _) => apply keeps_new_list; intros ? ?
  | |- keeps _ _ (_ ≫= _) => apply keeps_bind; [|intros ?]
  | |- keeps _ _ (for_each _ _) => apply keeps_for_each; intros ?
  | |- keeps _ _ (if ?b then _ else _) => destruct b
  | |- keeps _ _ (match ?x with _ => _ end) => destruct x
  | |- keeps _ _ (let _ := _ in _) => cbv zeta
  | |- keeps _ _ _ => solve [auto with keeps]
  end.

(** Every list object, the caller's among them, is kept: the appends of
    [execute] go to the list that it has created. *)
Lemma keeps_execute self (messages : loc) temp mct r o :
  is_list o → keeps r o (execute self messages temp mct).
Proof. intros Ho. unfold execute. repeat keeps_step. Qed.

(** C9: whatever [execute] does (a hit, a reply, an empty reply or an
    exception), the caller's list object holds afterwards the messages it
    held before, in the same order; so does every list object of the
    store, hence the list that [execute] appends to is none of them: it
    is a new one. *)
Theorem execute_keeps_conversation self (messages : loc) temp mct w msgs res w' :
  heap w !! messages = Some (OMessages msgs) →
  execute self messages temp mct w = (res, w') →
  heap w' !! messages = Some (OMessages msgs)
  ∧ ∀ a o, heap w !! a = Some o → is_list o → heap w' !! a = Some o.
Proof.
  intros Hw H. split.
  - exact (keeps_execute self messages temp mct messages (OMessages msgs) I w res w' Hw H).
  - intros a o Ha Ho. exact (keeps_execute self messages temp mct a o Ho w res w' Ha H).
Qed.

(** ** The outgoing list *)

Lemma last_where_Some {A} (p : A → bool) l x :
  last_where p l = Some x → p x = true ∧ x ∈ l.
Proof.
  unfold last_where. intros H. apply last_Some in H as [l' H].
  assert (Hin : In x (List.filter p l)) by (rewrite H; apply in_or_app; right; by left).
  apply filter_In in Hin as [Hin Hp]. split; [done|]. by apply list_elem_of_In.
Qed.

Lemma filter_none {A} (p : A → bool) l :
  Forall (λ x, p x = false) l → List.filter p l = [].
Proof.
  induction 1 as [|x l Hx _ IH]; simpl; [done|]. by rewrite Hx.
Qed.

(** The message picked is the last system message of the conversation. *)
Lemma system_of_last before s after :
  is_system s = true → Forall (λ m, is_system m = false) after →
  system_of (before ++ s :: after) = s.
Proof.
  intros Hs Hafter. unfold system_of, last_where.
  rewrite List.filter_app. simpl. rewrite Hs, (filter_none _ after Hafter).
  by rewrite last_snoc.
Qed.

(** Without a system message the default one is picked. *)
Lemma system_of_default msgs :
  Forall (λ m, is_system m = false) msgs → system_of msgs = default_system_message.
Proof.
  intros H. unfold system_of, last_where. by rewrite (filter_none _ msgs H).
Qed.

Lemma system_of_is_system msgs : is_system (system_of msgs) = true.
Proof.
  unfold system_of. destruct (last_where is_system msgs) as [s|] eqn:E; [|done].
  by apply last_where_Some in E as [? _].
Qed.

Lemma dict_is_system_to_dict m : dict_is_system (to_dict m) = is_system m.
Proof.
  unfold dict_is_system, is_system. rewrite to_dict_role.
  destruct (String.eqb_spec (role m) "system") as [E|N].
  - rewrite bool_decide_eq_true_2; [done|]. by rewrite E.
  - rewrite bool_decide_eq_false_2; [done|]. by intros [= ?].
Qed.

(** The outgoing list starts with the picked system message, the only system
    message in it, followed by the messages of the conversation that are not
    system messages, in their order. *)
Lemma outgoing_shape msgs :
  outgoing msgs
  = to_dict (system_of msgs) :: map to_dict (List.filter (λ m, negb (is_system m)) msgs)
  ∧ dict_is_system (to_dict (system_of msgs)) = true
  ∧ Forall (λ d, dict_is_system d = false)
           (map to_dict (List.filter (λ m, negb (is_system m)) msgs)).
Proof.
  split; [done|]. split.
  - by rewrite dict_is_system_to_dict, system_of_is_system.
  - apply Forall_map, Forall_forall. intros m Hin.
    apply list_elem_of_In, filter_In in Hin as [_ Hm].
    simpl. rewrite dict_is_system_to_dict. by destruct (is_system m).
Qed.

(** What a miss on a nonempty conversation adds to the trace: the count of
    the outgoing list with the tokenizer of the configured model and, unless
    the call of [execute_direct] raised before, the dispatch of
    [sent_request]. *)
Lemma execute_miss_sent self r temp mct w msgs res w' :
  heap w !! r = Some (OMessages msgs) → msgs ≠ [] → cache_miss self msgs w →
  execute self r temp mct w = (res, w') →
  let counted := counted self (outgoing msgs) (trace w) in
  ∃ direct w2,
    (res, w') = normalize self msgs (fresh (dom (heap w))) (direct, w2)
    ∧ heap w2 = heap (built w (outgoing msgs))
    ∧ trace w' = trace w2
    ∧ ((trace w2 = counted ∧ ∃ e, direct = inl e)
       ∨ (trace w2 = counted ++ [EvDispatch (sent_request msgs temp mct)]
          ∧ direct = openai_create counted (sent_request msgs temp mct))).
Proof.
  intros Hr Hne Hmiss H. cbv zeta.
  rewrite (execute_miss _ _ _ _ _ msgs) in H by done.
  destruct (execute_direct self (outgoing msgs) [] default_model mct temp true
              (built w (outgoing msgs))) as [direct w2] eqn:Hd.
  exists direct, w2. split; [done|].
  apply execute_direct_world in Hd. cbv zeta in Hd.
  destruct Hd as (Hheap & Htrace). split; [done|]. split.
  { change w' with (res, w').2. rewrite <- H. apply normalize_trace. }
  destruct Htrace as [Ht|(req & Ht & Hres & _ & _ & _ & _ & Hreq)]; [by left|].
  right. by rewrite (Hreq eq_refl) in Ht, Hres.
Qed.

Lemma app_singleton_absurd {A} (l : list A) x : l ≠ l ++ [x].
Proof.
  intros H. apply (f_equal length) in H. rewrite length_app in H. simpl in H. lia.
Qed.

(** The request of a miss and the model of its token count. *)
Lemma execute_miss_dispatch self r temp mct w msgs res w' req :
  heap w !! r = Some (OMessages msgs) → cache_miss self msgs w →
  execute self r temp mct w = (res, w') →
  dispatches (trace w') = dispatches (trace w) ++ [req] →
  req = sent_request msgs temp mct
  ∧ token_counts (trace w') = token_counts (trace w) ++ [model self].
Proof.
  intros Hr Hmiss H Hreq.
  destruct (decide (msgs = [])) as [->|Hne].
  { rewrite execute_miss_empty in H by done. inversion H. subst w'.
    by apply app_singleton_absurd in Hreq. }
  apply (execute_miss_sent _ _ _ _ _ msgs) in H as (direct & w2 & _ & _ & Ht & Hsent);
    [|done..].
  rewrite Ht in *. unfold counted in Hsent.
  destruct Hsent as [[Ht2 _]|[Ht2 _]]; rewrite Ht2 in *.
  - rewrite dispatches_app in Hreq. simpl in Hreq. rewrite app_nil_r in Hreq.
    by apply app_singleton_absurd in Hreq.
  - rewrite !dispatches_app in Hreq. simpl in Hreq. rewrite app_nil_r in Hreq.
    apply app_inv_head in Hreq as [= <-]. split; [done|].
    rewrite !token_counts_app. simpl. by rewrite app_nil_r.
Qed.

(** On a nonempty conversation that misses the cache, the list that
    [execute] counts and sends is the outgoing list of the conversation:
    one system message, first, which is the last system message of the
    conversation or else the default one, then the other messages in their
    order. *)
Lemma execute_outgoing self r temp mct w msgs res w' :
  heap w !! r = Some (OMessages msgs) → msgs ≠ [] → cache_miss self msgs w →
  execute self r temp mct w = (res, w') →
  (trace w' = trace w ++ [EvTokenCount (model self) (InDicts (outgoing msgs)) ""]
   ∨ trace w' = trace w ++ [EvTokenCount (model self) (InDicts (outgoing msgs)) "";
                            EvDispatch (sent_request msgs temp mct)])
  ∧ ∃ rest, outgoing msgs = to_dict (system_of msgs) :: rest
            ∧ rest = map to_dict (List.filter (λ m, negb (is_system m)) msgs)
            ∧ dict_is_system (to_dict (system_of msgs)) = true
            ∧ Forall (λ d, dict_is_system d = false) rest.
Proof.
  intros Hr Hne Hmiss H. split.
  - apply (execute_miss_sent _ _ _ _ _ msgs) in H as (direct & w2 & _ & _ & Ht & Hsent);
      [|done..].
    rewrite Ht. unfold counted in Hsent.
    destruct Hsent as [[-> _]|[-> _]]; [by left|right]. by rewrite <- app_assoc.
  - eexists. split; [reflexivity|]. split; [reflexivity|]. apply outgoing_shape.
Qed.

(** C1: on the empty conversation, which has no system message, a miss does
    not send the default system message: [messages[-1]] raises an index
    error, nothing is counted, built or dispatched, whereas the list
    described for this conversation is the default system message alone. *)
Theorem execute_empty_conversation self r temp mct w :
  heap w !! r = Some (OMessages []) → cache_miss self [] w →
  execute self r temp mct w = (inl IndexError, w)
  ∧ outgoing [] = [to_dict (System (mkContent "You are a helpful assistant."))].
Proof. intros Hr Hmiss. split; [by apply execute_miss_empty|reflexivity]. Qed.

(** C3: when the reply to the request sent by a miss is the empty
    dictionary, [execute] returns the Assistant flagged as an error, with
    the fixed text, the outgoing list (system message included) as context
    and the system message sent; every object of the store, the cache among
    them, is as before. *)
Theorem execute_empty_response self r temp mct w msgs res w' sent req chat_response :
  heap w !! r = Some (OMessages msgs) → cache_miss self msgs w →
  execute self r temp mct w = (res, w') →
  trace w' = trace w ++ sent ++ [EvDispatch req] →
  openai_create (trace w ++ sent) req = inr chat_response →
  size chat_response = 0%nat →
  res = inr (Assistant (mkContent "The model could not execute the query.") true
                       (map shallow (kept msgs)) (Some (system_of msgs)))
  ∧ map to_dict (map shallow (kept msgs)) = req_messages req
  ∧ ∀ l o, heap w !! l = Some o → heap w' !! l = Some o.
Proof.
  intros Hr Hmiss H Htrace Hreply Hsize.
  destruct (decide (msgs = [])) as [->|Hne].
  { rewrite execute_miss_empty in H by done. inversion H. subst w'.
    apply (f_equal length) in Htrace. rewrite !length_app in Htrace.
    simpl in Htrace. lia. }
  apply (execute_miss_sent _ _ _ _ _ msgs) in H as (direct & w2 & Hn & Hheap & Ht & Hsent);
    [|done..].
  rewrite Ht in Htrace. unfold counted in Hsent.
  destruct Hsent as [[Ht2 _]|[Ht2 Hdirect]]; rewrite Ht2 in Htrace.
  { apply app_inv_head in Htrace. destruct sent as [|? [|? ?]]; discriminate. }
  rewrite <- app_assoc in Htrace. apply app_inv_head in Htrace.
  apply (app_inj_tail [_]) in Htrace as [<- [= <-]].
  rewrite Hreply in Hdirect. subst direct. unfold normalize in Hn.
  rewrite bool_decide_eq_true_2 in Hn by done. inversion Hn. subst.
  split; [done|]. split.
  { rewrite map_map. apply map_ext. intros m. apply to_dict_shallow. }
  intros l o Hl. rewrite Hheap. cbn [built heap].
  rewrite lookup_insert_ne; [done|]. by eapply new_list_fresh.
Qed.

(** C4: a first call that misses the cache of the executor and returns a
    result not flagged as an error has dispatched exactly one request and
    stored the result under the conversation; any later call on a
    conversation with the same roles and contents in the same order, in the
    caller's list or in another one, returns that result and leaves the
    store and the trace as they are: no count, no dispatch. *)
Theorem execute_twice self r temp mct w msgs a w1 :
  heap w !! r = Some (OMessages msgs) →
  is_Some (cache self) → cache_miss self msgs w →
  execute self r temp mct w = (inr a, w1) → is_error a = false →
  dispatches (trace w1) = dispatches (trace w) ++ [sent_request msgs temp mct]
  ∧ cache_hit self msgs a w1
  ∧ heap w1 !! r = Some (OMessages msgs)
  ∧ ∀ r' msgs' temp' mct',
      heap w1 !! r' = Some (OMessages msgs') → fingerprint msgs' = fingerprint msgs →
      execute self r' temp' mct' w1 = (inr a, w1).
Proof.
  intros Hr [c Hself] Hmiss H Herr.
  assert (Hkeep : heap w1 !! r = Some (OMessages msgs))
    by exact (keeps_execute self r temp mct r (OMessages msgs) I w _ _ Hr H).
  destruct (decide (msgs = [])) as [->|Hne].
  { by rewrite execute_miss_empty in H. }
  apply (execute_miss_sent _ _ _ _ _ msgs) in H as (direct & w2 & Hn & Hheap & Ht & Hsent);
    [|done..].
  assert (Hhit : cache_hit self msgs a w1).
  { unfold normalize in Hn. destruct direct as [e|resp]; [done|].
    destruct (bool_decide _); [inversion Hn; by subst|].
    destruct (first_choice_message resp); [done|].
    destruct (from_dict _); [done|]. inversion Hn. subst a w1. clear Hn.
    unfold cache_miss in Hmiss. rewrite Hself in Hmiss.
    destruct Hmiss as (store & Hc & _).
    unfold store_result. rewrite Hself. cbn [heap trace].
    rewrite lookup_insert_ne by (by eapply new_list_fresh).
    rewrite Hheap. cbn [built heap].
    rewrite lookup_insert_ne by (by eapply new_list_fresh). rewrite Hc.
    eexists c, _. split; [done|]. split; [apply lookup_insert_eq|].
    apply lookup_insert_eq. }
  split; [|split; [done|split; [done|]]].
  - rewrite Ht. unfold counted in Hsent.
    destruct Hsent as [[_ [e ->]]|[-> _]]; [done|].
    rewrite !dispatches_app. simpl. by rewrite app_nil_r.
  - intros r' msgs' temp' mct' Hr' Hfp. apply (execute_hit _ _ _ _ _ msgs'); [done|].
    destruct Hhit as (c' & store & ? & ? & ?). exists c', store. by rewrite Hfp.
Qed.

(** C10: two executors, whatever their models, that miss on the same
    conversation and dispatch, dispatch the same request, whose model is
    the default of [execute_direct]; the configured model of each is the one
    its tokens are counted with. *)
Theorem execute_request_ignores_model self1 self2 r temp mct w msgs
    res1 w1 res2 w2 req1 req2 :
  heap w !! r = Some (OMessages msgs) →
  cache_miss self1 msgs w → cache_miss self2 msgs w →
  execute self1 r temp mct w = (res1, w1) →
  execute self2 r temp mct w = (res2, w2) →
  dispatches (trace w1) = dispatches (trace w) ++ [req1] →
  dispatches (trace w2) = dispatches (trace w) ++ [req2] →
  req_model req1 = "gpt-3.5-turbo-16k-0613"
  ∧ req1 = req2
  ∧ token_counts (trace w1) = token_counts (trace w) ++ [model self1]
  ∧ token_counts (trace w2) = token_counts (trace w) ++ [model self2].
Proof.
  intros Hr Hm1 Hm2 H1 H2 Hd1 Hd2.
  destruct (execute_miss_dispatch _ _ _ _ _ _ _ _ _ Hr Hm1 H1 Hd1) as [-> Hc1].
  destruct (execute_miss_dispatch _ _ _ _ _ _ _ _ _ Hr Hm2 H2 Hd2) as [-> Hc2].
  done.
Qed.

(** * Further properties of the executor *)

(** ** The helper [last] *)

Lemma last_filter_Some {A} (p : A → bool) (l : list A) x :
  last (List.filter p l) = Some x →
  ∃ before after, l = before ++ x :: after ∧ p x = true
                  ∧ Forall (λ y, p y = false) after.
Proof.
  induction l as [|a l IH] using rev_ind; [done|].
  rewrite List.filter_app. simpl. destruct (p a) eqn:Ha.
  - rewrite last_snoc. intros [= <-]. exists l, []. by rewrite Forall_nil.
  - rewrite app_nil_r. intros H. destruct (IH H) as (before & after & -> & Hx & Hafter).
    exists before, (after ++ [a]). rewrite <- app_assoc. split; [done|]. split; [done|].
    apply Forall_app. split; [done|]. by apply Forall_singleton.
Qed.

(** [last] returns the last element that satisfies the predicate, and
    [None] exactly when no element does. *)
Theorem last_where_spec {A} (predicate : A → bool) (iterable : list A) :
  (∀ x, last_where predicate iterable = Some x
        ↔ ∃ before after, iterable = before ++ x :: after ∧ predicate x = true
                          ∧ Forall (λ y, predicate y = false) after)
  ∧ (last_where predicate iterable = None
     ↔ Forall (λ y, predicate y = false) iterable).
Proof.
  unfold last_where. split; [intros x; split|split].
  - apply last_filter_Some.
  - intros (before & after & -> & Hx & Hafter).
    rewrite List.filter_app. simpl. rewrite Hx, (filter_none _ after Hafter).
    by rewrite last_snoc.
  - intros H. apply last_None in H. apply Forall_forall. intros y Hy.
    destruct (predicate y) eqn:Hp; [|done].
    assert (Hin : In y (List.filter predicate iterable))
      by (apply filter_In; split; [by apply list_elem_of_In|done]).
    rewrite H in Hin. destruct Hin.
  - intros H. by rewrite (filter_none _ iterable H).
Qed.

(** ** Validation in [execute_direct] *)

Lemma calculate_tokens_nonneg self input extra w n w1 :
  calculate_tokens self input extra w = (inr n, w1) → 0 ≤ n.
Proof.
  unfold calculate_tokens, emit, lift, encode, mbind, M_bind.
  destruct input as [[|m ms]|[|d ds]|s]; simpl;
    destruct (encoding_for_model (model self)); intros [= <- _]; lia.
Qed.

(** When the requested completion tokens alone exceed [max_tokens] minus
    256, every call whose tokens can be counted is rejected as too long,
    whatever its messages, functions and format. *)
Theorem execute_direct_budget_exhausted self messages functions m
    (max_completion_tokens : Z) t chat w (message_tokens : Z) w1 :
  max_completion_tokens > max_tokens self - 256 →
  calculate_tokens self (InDicts messages) "" w = (inr message_tokens, w1) →
  execute_direct self messages functions m max_completion_tokens t chat w
  = (inl (Exception (prompt_too_long message_tokens max_completion_tokens
                                     (max_tokens self))), w1)
  ∧ dispatches (trace w1) = dispatches (trace w).
Proof.
  intros Hc Hn. pose proof (calculate_tokens_nonneg _ _ _ _ _ _ Hn) as Hpos. split.
  - apply execute_direct_too_long; [done|lia].
  - apply calculate_tokens_world in Hn. subst w1. simpl.
    rewrite dispatches_app. simpl. apply app_nil_r.
Qed.

(** [execute_direct] dispatches exactly when the tokens could be counted,
    fit the budget, and the call is not one in the non-chat format with
    functions; it then dispatches one request. *)
Theorem execute_direct_dispatches_iff self messages functions m
    (max_completion_tokens : Z) t chat w res w' :
  execute_direct self messages functions m max_completion_tokens t chat w = (res, w') →
  ((∃ req, dispatches (trace w') = dispatches (trace w) ++ [req])
   ↔ ∃ n w1, calculate_tokens self (InDicts messages) "" w = (inr n, w1)
             ∧ n + max_completion_tokens + 256 ≤ max_tokens self
             ∧ (chat = true ∨ functions = []))
  ∧ (dispatches (trace w') = dispatches (trace w)
     ∨ ∃ req, dispatches (trace w') = dispatches (trace w) ++ [req]).
Proof.
  intros H.
  assert (Hcount : ∀ w1, w1 = mkWorld (heap w) (trace w ++ [EvTokenCount (model self)
                                                    (InDicts messages) ""]) →
                         dispatches (trace w1) = dispatches (trace w)).
  { intros w1 ->. simpl. rewrite dispatches_app. simpl. apply app_nil_r. }
  assert (Hcreate : ∀ req w1, dispatches (trace w1) = dispatches (trace w) →
                              dispatches (trace (create req w1).2)
                              = dispatches (trace w) ++ [req]).
  { intros req w1 Hw1. unfold create. simpl. rewrite dispatches_app, Hw1. done. }
  unfold execute_direct in H.
  apply bind_inv in H as [(e & H & ->)|(n & w1 & H & Hk)];
    pose proof (calculate_tokens_world _ _ _ _ _ _ H) as Hw;
    pose proof (Hcount _ Hw) as Hd.
  { split; [|by left]. rewrite Hd. split.
    - intros [req Hreq]. by apply app_singleton_absurd in Hreq.
    - intros (n & w1 & Hn & _). rewrite H in Hn. discriminate. }
  rewrite prompt_check in Hk. case_bool_decide as Hlong.
  { inversion Hk. subst res w'. split; [|by left]. rewrite Hd. split.
    - intros [req Hreq]. by apply app_singleton_absurd in Hreq.
    - intros (n' & w1' & Hn & Hfit & _). rewrite H in Hn. inversion Hn. subst. lia. }
  destruct chat; simpl in Hk.
  - assert (Hsent : ∃ req, dispatches (trace w') = dispatches (trace w) ++ [req]).
    { destruct functions; eexists; change w' with (res, w').2; rewrite <- Hk;
        by apply Hcreate. }
    split; [|by right]. split; [|done].
    intros _. exists n, w1. split; [done|]. split; [lia|by left].
  - case_bool_decide as Hfun; simpl in Hk.
    + inversion Hk. subst res w'. split; [|by left]. rewrite Hd. split.
      * intros [req Hreq]. by apply app_singleton_absurd in Hreq.
      * intros (_ & _ & _ & _ & [?| ->]); [done|]. simpl in Hfun. lia.
    + assert (Hsent : ∃ req, dispatches (trace w') = dispatches (trace w) ++ [req]).
      { eexists. change w' with (res, w').2. rewrite <- Hk. by apply Hcreate. }
      split; [|by right]. split; [|done].
      intros _. exists n, w1. split; [done|]. split; [lia|]. right.
      destruct functions; [done|]. simpl in Hfun. lia.
Qed.

(** A call in the non-chat format without functions that fits the budget
    goes to the completion endpoint: one request, with the given model,
    temperature, token limit and messages, and no functions. *)
Theorem execute_direct_completion self messages m (max_completion_tokens : Z) t
    w (message_tokens : Z) w1 :
  calculate_tokens self (InDicts messages) "" w = (inr message_tokens, w1) →
  message_tokens + max_completion_tokens + 256 ≤ max_tokens self →
  let req := mkRequest Completion m t max_completion_tokens None messages in
  execute_direct self messages [] m max_completion_tokens t false w
  = (openai_create (trace w1) req, mkWorld (heap w1) (trace w1 ++ [EvDispatch req]))
  ∧ dispatches (trace w1 ++ [EvDispatch req]) = dispatches (trace w) ++ [req].
Proof.
  intros Hn Hle req. split.
  - unfold execute_direct. erewrite bind_inr by exact Hn.
    by rewrite prompt_check, bool_decide_eq_false_2 by lia.
  - apply calculate_tokens_world in Hn. subst w1. simpl.
    rewrite !dispatches_app. simpl. by rewrite app_nil_r.
Qed.

(** ** Outcomes of [execute] *)

(** A hit returns the stored value whatever the temperature and the token
    limit, and changes neither the store nor the trace: nothing is counted
    or validated, also for a conversation that a miss would reject. *)
Theorem execute_hit_unvalidated self r temp mct w msgs a :
  heap w !! r = Some (OMessages msgs) → cache_hit self msgs a w →
  execute self r temp mct w = (inr a, w).
Proof. apply execute_hit. Qed.

(** What is known once a miss has dispatched a request. *)
Lemma execute_dispatched self r temp mct w msgs res w' sent req :
  heap w !! r = Some (OMessages msgs) → cache_miss self msgs w →
  execute self r temp mct w = (res, w') →
  trace w' = trace w ++ sent ++ [EvDispatch req] →
  msgs ≠ [] ∧ req = sent_request msgs temp mct
  ∧ ∃ w2, heap w2 = heap (built w (outgoing msgs))
          ∧ (res, w') = normalize self msgs (fresh (dom (heap w)))
                          (openai_create (trace w ++ sent) req, w2).
Proof.
  intros Hr Hmiss H Htrace.
  destruct (decide (msgs = [])) as [->|Hne].
  { rewrite execute_miss_empty in H by done. inversion H. subst w'.
    apply (f_equal length) in Htrace. rewrite !length_app in Htrace.
    simpl in Htrace. lia. }
  apply (execute_miss_sent _ _ _ _ _ msgs) in H as (direct & w2 & Hn & Hheap & Ht & Hsent);
    [|done..].
  rewrite Ht in Htrace. unfold counted in Hsent.
  destruct Hsent as [[Ht2 _]|[Ht2 Hdirect]]; rewrite Ht2 in Htrace.
  { apply app_inv_head in Htrace. destruct sent as [|? [|? ?]]; discriminate. }
  rewrite <- app_assoc in Htrace. apply app_inv_head in Htrace.
  apply (app_inj_tail [_]) in Htrace as [<- [= <-]].
  split; [done|]. split; [done|]. exists w2. split; [done|]. by rewrite <- Hdirect.
Qed.

Lemma built_keeps w l a o :
  heap w !! a = Some o → heap (built w l) !! a = Some o.
Proof.
  intros H. cbn [built heap]. rewrite lookup_insert_ne; [done|]. by eapply new_list_fresh.
Qed.

(** An error of the remote call is not caught: [execute] raises it, and
    every object of the store, the cache among them, is as before. *)
Theorem execute_remote_error self r temp mct w msgs res w' sent req e :
  heap w !! r = Some (OMessages msgs) → cache_miss self msgs w →
  execute self r temp mct w = (res, w') →
  trace w' = trace w ++ sent ++ [EvDispatch req] →
  openai_create (trace w ++ sent) req = inl e →
  res = inl e ∧ ∀ l o, heap w !! l = Some o → heap w' !! l = Some o.
Proof.
  intros Hr Hmiss H Htrace Hreply.
  destruct (execute_dispatched _ _ _ _ _ _ _ _ _ _ Hr Hmiss H Htrace)
    as (_ & _ & w2 & Hheap & Hn).
  rewrite Hreply in Hn. inversion Hn. subst. split; [done|].
  intros l o Hl. rewrite Hheap. by apply built_keeps.
Qed.

(** A reply that is not empty and holds no message of a first choice makes
    [execute] raise the error of the access that fails in
    [chat_response['choices'][0]['message']]: a key error without the
    [choices] entry or without the [message] entry of the first choice, an
    index error for an empty list or an empty text, a type error for any
    other text; nothing is stored. *)
Theorem execute_reply_without_choice self r temp mct w msgs res w' sent req
    chat_response :
  heap w !! r = Some (OMessages msgs) → cache_miss self msgs w →
  execute self r temp mct w = (res, w') →
  trace w' = trace w ++ sent ++ [EvDispatch req] →
  openai_create (trace w ++ sent) req = inr chat_response →
  size chat_response ≠ 0%nat → no_first_message chat_response →
  res = inl (match chat_response !! "choices" with
             | None => KeyError "choices"
             | Some (FChoices []) => IndexError
             | Some (FChoices (_ :: _)) => KeyError "message"
             | Some (FOther v) => if bool_decide (v = "") then IndexError else TypeError
             end)
  ∧ ∀ l o, heap w !! l = Some o → heap w' !! l = Some o.
Proof.
  intros Hr Hmiss H Htrace Hreply Hsize Hnone.
  destruct (execute_dispatched _ _ _ _ _ _ _ _ _ _ Hr Hmiss H Htrace)
    as (_ & _ & w2 & Hheap & Hn).
  rewrite Hreply in Hn. unfold normalize in Hn.
  rewrite bool_decide_eq_false_2 in Hn by done.
  assert (Hkeep : ∀ l o, heap w !! l = Some o → heap w2 !! l = Some o).
  { intros l o Hl. rewrite Hheap. by apply built_keeps. }
  unfold no_first_message in Hnone. unfold first_choice_message in Hn.
  destruct (chat_response !! "choices") as [[[|c cs]|v]|].
  - inversion Hn. by subst.
  - rewrite Hnone in Hn. inversion Hn. by subst.
  - case_bool_decide; inversion Hn; by subst.
  - inversion Hn. by subst.
Qed.



End Executor.

(** * Properties of helpers/websearch.py *)

Section WebHelpersProperties.
Import PyStr WebHelpers.

(** ** Lines *)

Lemma splitlines_from_line_feed line rest :
  splitlines_from line (10%N :: rest) = line :: splitlines_from [] rest.
Proof. simpl. by destruct rest. Qed.

Lemma splitlines_from_app line x rest :
  no_boundary x → splitlines_from line (x ++ rest) = splitlines_from (line ++ x) rest.
Proof.
  revert line. induction x as [|c x IH]; intros line Hx; simpl.
  - by rewrite app_nil_r.
  - apply Forall_cons in Hx as [Hc Hx]. rewrite Hc, IH by done.
    by rewrite <- app_assoc.
Qed.

Lemma without_final_blank_snoc l : without_final_blank (l ++ [[]]) = l.
Proof.
  unfold without_final_blank. rewrite last_snoc, length_app. simpl.
  replace (length l + 1 - 1)%nat with (length l) by lia. by rewrite take_app_length.
Qed.

Lemma without_final_blank_id l : last l ≠ Some [] → without_final_blank l = l.
Proof.
  unfold without_final_blank. intros H. destruct (last l) as [[|c x]|]; done.
Qed.

Lemma without_final_blank_cons x y l :
  without_final_blank (x :: y :: l) = x :: without_final_blank (y :: l).
Proof.
  unfold without_final_blank. change (last (x :: y :: l)) with (last (y :: l)).
  destruct (last (y :: l)) as [[|c z]|]; try done.
  simpl. by rewrite Nat.sub_0_r.
Qed.

(** Joining lines with line feeds and splitting again gives the lines back,
    except for a blank last line. *)
Lemma splitlines_join l :
  Forall no_boundary l → splitlines (join [10%N] l) = without_final_blank l.
Proof.
  unfold splitlines. induction l as [|x [|y l] IH]; intros Hl.
  - done.
  - apply Forall_cons in Hl as [Hx _]. simpl.
    rewrite <- (app_nil_r x) at 1. rewrite splitlines_from_app by done. simpl.
    by destruct x.
  - apply Forall_cons in Hl as [Hx Hl].
    change (join [10%N] (x :: y :: l)) with (x ++ 10%N :: join [10%N] (y :: l)).
    rewrite splitlines_from_app, splitlines_from_line_feed by done. simpl app.
    by rewrite IH, without_final_blank_cons.
Qed.

Lemma splitlines_from_no_boundary n : ∀ s line,
  (length s ≤ n)%nat → no_boundary line → Forall no_boundary (splitlines_from line s).
Proof.
  induction n as [|n IH]; intros s line Hn Hline.
  - destruct s; [|simpl in Hn; lia]. simpl. destruct line; [done|].
    by apply Forall_singleton.
  - destruct s as [|c rest]; simpl.
    { destruct line; [done|]. by apply Forall_singleton. }
    simpl in Hn. destruct (line_boundary c) eqn:Hc.
    + destruct rest as [|c' rest'].
      { apply Forall_cons. split; [done|]. by apply Forall_nil. }
      destruct ((c =? 13)%N && (c' =? 10)%N); apply Forall_cons; (split; [done|]);
        (apply IH; [simpl in *; lia|by apply Forall_nil]).
    + apply IH; [lia|]. apply Forall_app. split; [done|]. by apply Forall_singleton.
Qed.

(** No line of [splitlines] holds a line boundary. *)
Lemma splitlines_no_boundary s : Forall no_boundary (splitlines s).
Proof.
  apply (splitlines_from_no_boundary (length s)); [lia|by apply Forall_nil].
Qed.

(** ** The loop of [clean_markdown] *)

Lemma junk_line_blank : junk_line [] = false.
Proof. reflexivity. Qed.

Lemma adjacent_blanks_snoc l x :
  adjacent_blanks (l ++ [x])
  = adjacent_blanks l || (bool_decide (last l = Some []) && bool_decide (x = [])).
Proof.
  induction l as [|a [|b l] IH].
  - done.
  - simpl. rewrite orb_false_r. f_equal.
    apply bool_decide_ext. split; [by intros ->|by intros [= ->]].
  - change ((a :: b :: l) ++ [x]) with (a :: (b :: l) ++ [x]).
    change (last (a :: b :: l)) with (last (b :: l)).
    change (adjacent_blanks (a :: (b :: l) ++ [x]))
      with ((bool_decide (a = []) && bool_decide (b = []))
            || adjacent_blanks ((b :: l) ++ [x])).
    rewrite IH. simpl. by rewrite orb_assoc.
Qed.

Lemma clean_step_cases state line :
  (line = [] ∧ state.2 = 0 ∧ clean_step state line = (state.1 ++ [line], 1))
  ∨ (clean_step state line = state ∧ (line = [] ∨ junk_line line = true))
  ∨ (junk_line line = false ∧ (line = [] → state.2 < 0)
     ∧ clean_step state line = (state.1 ++ [line], 0)).
Proof.
  destruct state as [lines k]. unfold clean_step. simpl.
  destruct (decide (line = [])) as [->|Hline].
  - rewrite (bool_decide_eq_true_2 ([] = [])) by done. simpl.
    case_bool_decide as Hk; [left; by subst|].
    case_bool_decide as Hk1; [right; left; auto|].
    right. right. split; [done|]. split; [lia|done].
  - rewrite (bool_decide_eq_false_2 (line = [])) by done. simpl.
    destruct (junk_line line) eqn:Hjunk.
    + right. left. split; [|by right]. unfold junk_line in Hjunk.
      repeat (case_bool_decide; simpl in *; try done).
    + right. right. split; [done|]. split; [done|]. unfold junk_line in Hjunk.
      repeat (case_bool_decide; simpl in *; try done).
Qed.

Lemma clean_step_invariant state line :
  clean_invariant state → clean_invariant (clean_step state line).
Proof.
  intros (Hk & Hlast & Hadj & Hjunk).
  destruct (clean_step_cases state line)
    as [(-> & Hk0 & ->)|[[-> _]|(Hline & Hneg & ->)]]; [|done|];
    unfold clean_invariant; cbn [fst snd].
  - split; [by right|]. split; [by rewrite last_snoc|]. split.
    + rewrite adjacent_blanks_snoc, Hadj. simpl.
      rewrite bool_decide_eq_false_2; [done|]. intros H. apply Hlast in H. lia.
    + apply Forall_app. split; [done|]. by apply Forall_singleton.
  - assert (Hne : line ≠ []) by (intros H; specialize (Hneg H); lia).
    split; [by left|]. split.
    { rewrite last_snoc. simpl. split; [done|]. by intros [= ?]. }
    split.
    + rewrite adjacent_blanks_snoc, Hadj. simpl.
      by rewrite (bool_decide_eq_false_2 (line = [])), andb_false_r.
    + apply Forall_app. split; [done|]. by apply Forall_singleton.
Qed.

Lemma clean_fold_invariant l : ∀ state,
  clean_invariant state → clean_invariant (fold_left clean_step l state).
Proof.
  induction l as [|line l IH]; intros state H; simpl; [done|].
  by apply IH, clean_step_invariant.
Qed.

Lemma clean_lines_invariant text :
  adjacent_blanks (clean_lines text) = false
  ∧ Forall (λ line, junk_line line = false) (clean_lines text).
Proof.
  assert (H0 : clean_invariant ([], 0)).
  { split; [by left|]. split; [|done]. simpl. split; [lia|done]. }
  by destruct (clean_fold_invariant (splitlines text) _ H0) as (_ & _ & ? & ?).
Qed.

(** The lines of the result are lines of the input. *)
Lemma clean_fold_subset (P : str → Prop) l : ∀ state,
  Forall P state.1 → Forall P l → Forall P (fold_left clean_step l state).1.
Proof.
  induction l as [|line l IH]; intros state Hs Hl; simpl; [done|].
  apply Forall_cons in Hl as [Hline Hl]. apply IH; [|done].
  destruct (clean_step_cases state line) as [(_ & _ & ->)|[[-> _]|(_ & _ & ->)]];
    try done; simpl; apply Forall_app; (split; [done|]); by apply Forall_singleton.
Qed.

Lemma clean_lines_no_boundary text : Forall no_boundary (clean_lines text).
Proof.
  apply clean_fold_subset; [done|]. apply splitlines_no_boundary.
Qed.

Lemma clean_fold_kept l : ∀ state,
  List.filter kept_line (fold_left clean_step l state).1
  = List.filter kept_line state.1 ++ List.filter kept_line l.
Proof.
  induction l as [|line l IH]; intros state; cbn [fold_left].
  - simpl. by rewrite app_nil_r.
  - rewrite IH.
    assert (Hstep : List.filter kept_line (clean_step state line).1
                    = List.filter kept_line state.1 ++ List.filter kept_line [line]).
    { destruct (clean_step_cases state line)
        as [(-> & _ & ->)|[[-> Hdrop]|(_ & _ & ->)]]; simpl fst.
      - by rewrite List.filter_app.
      - assert (kept_line line = false) as Hk.
        { unfold kept_line. destruct Hdrop as [Hb|Hj]; [by rewrite Hb|].
          by rewrite Hj, andb_false_r. }
        simpl. by rewrite Hk, app_nil_r.
      - by rewrite List.filter_app. }
    rewrite Hstep, <- app_assoc. f_equal. simpl. by destruct (kept_line line).
Qed.

(** Lines that are already clean go through the loop unchanged. *)
Lemma clean_fold_fixed l : ∀ lines k,
  (k = 0 ∨ k = 1) → (k = 1 ↔ last lines = Some []) →
  adjacent_blanks (lines ++ l) = false →
  Forall (λ line, junk_line line = false) l →
  (fold_left clean_step l (lines, k)).1 = lines ++ l.
Proof.
  induction l as [|line l IH]; intros lines k Hk Hlast Hadj Hjunk; cbn [fold_left].
  - simpl. by rewrite app_nil_r.
  - apply Forall_cons in Hjunk as [Hline Hjunk].
    assert (Hadj' : adjacent_blanks (lines ++ [line]) = false).
    { rewrite (cons_middle line), app_assoc in Hadj.
      revert Hadj. generalize (lines ++ [line]). clear. intros l'.
      induction l as [|x l IH] using rev_ind; [by rewrite app_nil_r|].
      rewrite app_assoc, adjacent_blanks_snoc. intros H.
      apply orb_false_iff in H as [H _]. by apply IH. }
    rewrite adjacent_blanks_snoc in Hadj'. apply orb_false_iff in Hadj' as [_ Hpair].
    destruct (clean_step_cases (lines, k) line)
      as [(-> & Hk0 & ->)|[[Heq [->|Hj]]|(_ & Hneg & ->)]]; cbn [fst snd] in *.
    + rewrite (IH (lines ++ [[]]) 1); try done.
      * by rewrite <- app_assoc.
      * by right.
      * by rewrite last_snoc.
      * by rewrite <- app_assoc.
    + (* a blank line that the loop would drop: the counter is 1 *)
      exfalso.
      rewrite (bool_decide_eq_true_2 ([] = [])), andb_true_r in Hpair by done.
      apply bool_decide_eq_false in Hpair.
      destruct Hk as [Hk|Hk]; subst k; [|by apply Hpair, Hlast].
      unfold clean_step in Heq. by inversion Heq.
    + congruence.
    + assert (Hne : line ≠ []) by (intros H; specialize (Hneg H); lia).
      rewrite (IH (lines ++ [line]) 0); try done.
      * by rewrite <- app_assoc.
      * by left.
      * rewrite last_snoc. split; [done|]. by intros [= ?].
      * by rewrite <- app_assoc.
Qed.

Lemma without_final_blank_clean l :
  adjacent_blanks l = false →
  last (without_final_blank l) ≠ Some []
  ∧ adjacent_blanks (without_final_blank l) = false
  ∧ (∀ P : str → Prop, Forall P l → Forall P (without_final_blank l))
  ∧ List.filter kept_line (without_final_blank l) = List.filter kept_line l.
Proof.
  intros Hadj. destruct (decide (last l = Some [])) as [Hlast|Hlast].
  - apply last_Some in Hlast as [l' ->]. rewrite without_final_blank_snoc.
    rewrite adjacent_blanks_snoc in Hadj. apply orb_false_iff in Hadj as [Hadj Hpair].
    rewrite (bool_decide_eq_true_2 ([] = [])), andb_true_r in Hpair by done.
    apply bool_decide_eq_false in Hpair. split; [done|]. split; [done|]. split.
    + intros P H. by apply Forall_app in H as [? _].
    + rewrite List.filter_app. simpl. by rewrite app_nil_r.
  - by rewrite without_final_blank_id.
Qed.

(** ** What a caller of [clean_markdown] gets *)

(** The text returned by [clean_markdown] has none of the dropped lines
    ([<div>], [</div>], [[]], [[[]]], the star and entity lines) and no two
    blank lines in a row, also where a dropped line stood between blank
    lines of the input. *)
Theorem clean_markdown_lines (markdown_text : str) :
  Forall (λ line, junk_line line = false) (splitlines (clean_markdown markdown_text))
  ∧ adjacent_blanks (splitlines (clean_markdown markdown_text)) = false.
Proof.
  unfold clean_markdown. rewrite splitlines_join by apply clean_lines_no_boundary.
  destruct (clean_lines_invariant markdown_text) as [Hadj Hjunk].
  destruct (without_final_blank_clean _ Hadj) as (_ & Hadj' & Hall & _).
  split; [by apply Hall|done].
Qed.

(** Every line of the input that is neither blank nor one of the dropped
    lines is a line of the result, in the same order, and the result has no
    other line than these and blank ones. *)
Theorem clean_markdown_keeps_lines (markdown_text : str) :
  List.filter kept_line (splitlines (clean_markdown markdown_text))
  = List.filter kept_line (splitlines markdown_text)
  ∧ Forall (λ line, line = [] ∨ line ∈ splitlines markdown_text)
           (splitlines (clean_markdown markdown_text)).
Proof.
  unfold clean_markdown. rewrite splitlines_join by apply clean_lines_no_boundary.
  destruct (clean_lines_invariant markdown_text) as [Hadj _].
  destruct (without_final_blank_clean _ Hadj) as (_ & _ & Hall & Hkept).
  split.
  - rewrite Hkept. unfold clean_lines. by rewrite clean_fold_kept.
  - apply Hall. apply clean_fold_subset; [done|].
    apply Forall_forall. intros line Hin. by right.
Qed.

(** Cleaning is stable from the second application on; the first may leave
    a line feed at the end of the text, which the second removes. *)
Theorem clean_markdown_stable (markdown_text : str) :
  clean_markdown (clean_markdown (clean_markdown markdown_text))
  = clean_markdown (clean_markdown markdown_text).
Proof.
  destruct (clean_lines_invariant markdown_text) as [Hadj Hjunk].
  pose proof (clean_lines_no_boundary markdown_text) as Hnb.
  destruct (without_final_blank_clean _ Hadj) as (Hlast & Hadj' & Hall & _).
  assert (Hfixed : ∀ l, last l ≠ Some [] → adjacent_blanks l = false →
                        Forall (λ line, junk_line line = false) l →
                        Forall no_boundary l →
                        clean_lines (join [10%N] l) = l).
  { intros l Hl Ha Hj Hb. unfold clean_lines.
    rewrite splitlines_join, without_final_blank_id by done.
    rewrite (clean_fold_fixed l [] 0); [done|by left|split; [lia|done]|done|done]. }
  assert (Hsecond : clean_lines (clean_markdown markdown_text)
                    = without_final_blank (clean_lines markdown_text)).
  { unfold clean_markdown at 1. unfold clean_lines at 1.
    rewrite splitlines_join by done.
    rewrite (clean_fold_fixed _ [] 0);
      [done|by left|split; [lia|done]|done|by apply Hall]. }
  assert (Htwice : clean_markdown (clean_markdown markdown_text)
                   = join [10%N] (without_final_blank (clean_lines markdown_text))).
  { unfold clean_markdown at 1. by rewrite Hsecond. }
  rewrite Htwice. unfold clean_markdown at 1.
  rewrite Hfixed; [done|done|done|by apply Hall|by apply Hall].
Qed.

End WebHelpersProperties.

Section WebHelpersSearch.
Import PyStr WebHelpers.

(** ** The lines of [convert_html_to_markdown] *)

Lemma lstrip_suffix s : ∃ before, s = before ++ lstrip s.
Proof.
  induction s as [|c s [before IH]]; [by exists []|]. simpl.
  destruct (whitespace c); [|by exists []].
  exists (c :: before). simpl. by rewrite <- IH.
Qed.

Lemma lstrip_head s :
  match lstrip s with
  | [] => True
  | c :: _ => whitespace c = false
  end.
Proof.
  induction s as [|c s IH]; [done|]. simpl.
  by destruct (whitespace c) eqn:Hc; [|simpl].
Qed.

Lemma lstrip_fixed c s : whitespace c = false → lstrip (c :: s) = c :: s.
Proof. intros H. simpl. by rewrite H. Qed.

Lemma lstrip_idempotent s : lstrip (lstrip s) = lstrip s.
Proof.
  pose proof (lstrip_head s) as H. destruct (lstrip s) as [|c t]; [done|].
  by apply lstrip_fixed.
Qed.

Lemma strip_sub (P : N → Prop) s : Forall P s → Forall P (strip s).
Proof.
  intros H. unfold strip. apply List.Forall_rev.
  destruct (lstrip_suffix (rev (lstrip s))) as [b1 Hb1].
  assert (H1 : Forall P (rev (lstrip s))).
  { apply List.Forall_rev. destruct (lstrip_suffix s) as [b0 Hb0].
    rewrite Hb0 in H. by apply Forall_app in H as [_ ?]. }
  rewrite Hb1 in H1. by apply Forall_app in H1 as [_ ?].
Qed.

(** A stripped text has nothing left to strip. *)
Lemma strip_idempotent s : strip (strip s) = strip s.
Proof.
  unfold strip. set (a := lstrip s). set (b := lstrip (rev a)).
  assert (Hb : lstrip b = b) by apply lstrip_idempotent.
  assert (Hrev : lstrip (rev b) = rev b).
  { destruct (decide (b = [])) as [Eb|Eb]; [by rewrite Eb|].
    destruct (exists_last Eb) as (b' & x & Eb').
    pose proof (lstrip_head s) as Ha. fold a in Ha.
    destruct (lstrip_suffix (rev a)) as [before Hsuf]. fold b in Hsuf.
    clearbody a b. subst b. rewrite rev_unit. apply lstrip_fixed.
    destruct a as [|h t]; [by destruct before|].
    simpl in Hsuf. rewrite app_assoc in Hsuf.
    by apply app_inj_tail in Hsuf as [_ <-]. }
  by rewrite Hrev, rev_involutive, Hb.
Qed.

Lemma pandoc_step_lines lines line :
  Forall (λ l, pandoc_line l ∧ no_boundary l) lines → no_boundary line →
  Forall (λ l, pandoc_line l ∧ no_boundary l) (pandoc_step lines line).
Proof.
  intros Hlines Hline. unfold pandoc_step. cbv zeta.
  case_bool_decide as Hne; [|done].
  case_bool_decide as H1; simpl; [done|].
  case_bool_decide as H2; simpl; [done|].
  case_bool_decide as H3; simpl; [done|].
  case_bool_decide as H4; simpl; [done|].
  destruct (startswith (lit "![](") (strip line)) eqn:H5; [done|].
  repeat match goal with
         | |- Forall _ (if ?b then _ else _) => destruct b; [done|]
         end.
  apply Forall_app. split; [done|]. apply Forall_singleton. split.
  - split; [done|]. split; [apply strip_idempotent|]. done.
  - by apply strip_sub.
Qed.

Lemma pandoc_fold_lines l : ∀ lines,
  Forall (λ l, pandoc_line l ∧ no_boundary l) lines → Forall no_boundary l →
  Forall (λ l, pandoc_line l ∧ no_boundary l) (fold_left pandoc_step l lines).
Proof.
  induction l as [|line l IH]; intros lines Hlines Hl; cbn [fold_left]; [done|].
  apply Forall_cons in Hl as [Hline Hl]. apply IH; [|done].
  by apply pandoc_step_lines.
Qed.

(** Every line of the text returned by [convert_html_to_markdown] is not
    empty, has no white space at either end, is none of [<div>], [</div>],
    [[]] and [[[]]], and does not start with an image without alternative
    text; the text ends with no line feed. *)
Theorem convert_html_to_markdown_lines (pandoc : str → str) (html : str) :
  Forall pandoc_line (splitlines (convert_html_to_markdown pandoc html))
  ∧ join [10%N] (splitlines (convert_html_to_markdown pandoc html))
    = convert_html_to_markdown pandoc html.
Proof.
  unfold convert_html_to_markdown. cbv zeta.
  set (lines := fold_left pandoc_step (splitlines (pandoc html)) []).
  assert (H : Forall (λ l, pandoc_line l ∧ no_boundary l) lines).
  { apply pandoc_fold_lines; [done|]. apply splitlines_no_boundary. }
  assert (Hsplit : splitlines (join [10%N] lines) = lines).
  { rewrite splitlines_join by (eapply Forall_impl; [exact H|]; by intros ? [_ ?]).
    apply without_final_blank_id. intros Hlast. apply last_Some in Hlast as [l' Hl'].
    rewrite Hl' in H. apply Forall_app in H as [_ H].
    by apply Forall_singleton in H as [[? _] _]. }
  rewrite Hsplit. split; [|done].
  eapply Forall_impl; [exact H|]. by intros ? [? _].
Qed.

(** ** Searches *)

Lemma search_fold parser l : ∀ return_results,
  fold_left (search_step parser) l return_results
  = return_results ++ omap (parsed_text parser) l.
Proof.
  induction l as [|result l IH]; intros acc; cbn [fold_left].
  - simpl. by rewrite app_nil_r.
  - rewrite IH. unfold search_step, parsed_text. simpl omap.
    destruct (item "link" result) as [e|link]; [done|].
    destruct (parser link) as [e|text]; [done|]. by rewrite <- app_assoc.
Qed.

(** Once the search has returned, [__search_helper] raises nothing: the
    results without a link and those whose page the parser fails on are
    passed over, and the texts of the others are joined by a space, in the
    order of the results. *)
Theorem search_helper_texts (query : str) searcher parser results :
  searcher query = inr results →
  search_helper query searcher parser
  = inr (join (lit " ") (omap (parsed_text parser) results)).
Proof.
  intros H. unfold search_helper. by rewrite H, search_fold.
Qed.

Lemma linkedin_link_find links : ∀ urls,
  map (item "link") links = map inr urls →
  linkedin_link links = inr (List.find (contains (lit "linkedin.com")) urls).
Proof.
  induction links as [|link links IH]; intros [|url urls] H; try done.
  simpl in H. injection H as Hlink Hrest. simpl. rewrite Hlink.
  destruct (contains (lit "linkedin.com") url); [done|]. by apply IH.
Qed.

(** When the search returns results that all have a link, the profile is
    read from the first link that contains [linkedin.com] and, when none
    does, from the first link. *)
Theorem search_linkedin_profile_choice search_internet get_linkedin_profile
    (first_name last_name company_name : str) links first_url urls :
  search_internet (first_name ++ lit " " ++ last_name ++ lit " " ++ company_name
                   ++ lit " site:linkedin.com/in/") = inr links →
  map (item "link") links = map inr (first_url :: urls) →
  search_linkedin_profile search_internet get_linkedin_profile
                          first_name last_name company_name
  = get_linkedin_profile
      (default first_url (List.find (contains (lit "linkedin.com")) (first_url :: urls))).
Proof.
  intros Hsearch Hlinks. unfold search_linkedin_profile. rewrite Hsearch.
  rewrite (linkedin_link_find _ _ Hlinks).
  destruct links as [|link links]; [done|].
  rewrite bool_decide_eq_true_2 by (simpl; lia).
  destruct (List.find _ _) as [url|]; [done|].
  simpl in Hlinks. injection Hlinks as Hlink _. by rewrite Hlink.
Qed.

End WebHelpersSearch.

(** * Properties of helpers/edgar.py *)

Section EdgarHelpersProperties.
Import PyStr WebHelpers EdgarHelpers.

Variable datetime : Type.
Variable strftime : datetime → str.
Variable default_start_date : datetime.
Variable default_end_date : datetime.
Variable get_filings : Query → Exn + Filings.
Variable get_section : str → str → str → Exn + str.
Variable render_get_filing : str → Exn + option str.
Variable find_all_a : str → list StrDict.
Variable convert_html_to_markdown : str → Exn + str.

Lemma FormType_of_value form_type : FormType_of (value form_type) = inr form_type.
Proof. by destruct form_type. Qed.

Lemma FormType_of_inr s form_type : FormType_of s = inr form_type → s = value form_type.
Proof.
  unfold FormType_of. repeat case_bool_decide; intros [= <-]; done.
Qed.

(** A text form type is taken for the member of that value: the four
    values give what the members give, and any other text a [ValueError]
    before anything is fetched. *)
Theorem get_form_text_marshal (url : str) :
  (∀ form_type,
     get_form_text get_section render_get_filing find_all_a convert_html_to_markdown
                   url (inr (value form_type))
     = get_form_text get_section render_get_filing find_all_a convert_html_to_markdown
                     url (inl form_type))
  ∧ (∀ text, (∀ form_type, text ≠ value form_type) →
       get_form_text get_section render_get_filing find_all_a convert_html_to_markdown
                     url (inr text)
       = inl (ValueError "is not a valid FormType")).
Proof.
  split.
  - intros form_type. unfold get_form_text. by rewrite FormType_of_value.
  - intros text Hne. unfold get_form_text.
    destruct (FormType_of text) as [e|form_type] eqn:E.
    + unfold FormType_of in E. repeat case_bool_decide; by simplify_eq.
    + apply FormType_of_inr in E. by destruct (Hne form_type).
Qed.

(** ** The rows of [get_form_urls] *)

Lemma document_rows_described filing documents : ∀ rows rows',
  Forall (λ row, names_a_form (row_description row)) rows →
  document_rows filing documents rows = inr rows' →
  Forall (λ row, names_a_form (row_description row)) rows'.
Proof.
  induction documents as [|document documents IH]; intros rows rows' Hrows H;
    simpl in H.
  - by injection H as <-.
  - destruct (wanted document) eqn:Hw; [|by eapply IH].
    destruct (periodOfReport filing) as [period|]; [|done].
    unfold item in H. unfold wanted in Hw.
    destruct (document !! "description") as [description|]; [|done].
    destruct (document !! "documentUrl") as [url|]; [|done].
    eapply IH; [|exact H]. apply Forall_app. split; [done|].
    by apply Forall_singleton.
Qed.

Lemma filing_rows_described l : ∀ rows rows',
  Forall (λ row, names_a_form (row_description row)) rows →
  filing_rows l rows = inr rows' →
  Forall (λ row, names_a_form (row_description row)) rows'.
Proof.
  induction l as [|filing l IH]; intros rows rows' Hrows H; simpl in H.
  - by injection H as <-.
  - destruct (documentFormatFiles filing) as [documents|]; [|done].
    destruct (document_rows filing documents rows) as [e|rows1] eqn:E; [done|].
    eapply IH; [|exact H]. by eapply document_rows_described.
Qed.

Lemma get_form_urls_described (ticker : str) form_type start_date end_date rows :
  get_form_urls strftime get_filings ticker form_type start_date end_date = inr rows →
  Forall (λ row, names_a_form (row_description row)) rows.
Proof.
  unfold get_form_urls. cbv zeta.
  destruct (get_filings _) as [e|result]; [done|].
  destruct (filings result) as [l|]; [|done].
  by apply filing_rows_described.
Qed.

(** Every row that [get_form_urls] returns has a description that contains
    [10-Q], [10-K] or [8-K], whatever the form type asked for. *)
Theorem get_form_urls_descriptions (ticker : str) form_type start_date end_date rows :
  get_form_urls strftime get_filings ticker form_type start_date end_date = inr rows →
  Forall (λ row, names_a_form (row_description row)) rows.
Proof. apply get_form_urls_described. Qed.

(** ** The latest form *)

(** With the form type [ANY], [get_latest_form_text] returns the empty text
    whenever the query succeeds, whatever the filings found:
    [get_form_text] has no text for [ANY]. *)
Theorem get_latest_form_text_any (symbol : str) urls :
  get_form_urls strftime get_filings symbol (Some ANY)
                default_start_date default_end_date = inr urls →
  get_latest_form_text strftime default_start_date default_end_date get_filings
                       get_section render_get_filing find_all_a convert_html_to_markdown
                       symbol ANY
  = inr [].
Proof.
  intros H. unfold get_latest_form_text. rewrite H.
  by destruct urls as [|[[period description] url] urls].
Qed.

(** [get_latest_filing] reads the last row of [get_form_urls]: with no row
    it raises an index error, and it returns a text only when the
    description of that row is exactly [10-K], [10-Q] or [8-K], having
    raised a value error otherwise; the text is that of the form of the row
    for this type. *)
Theorem get_latest_filing_last (symbol : str) urls :
  get_form_urls strftime get_filings symbol None
                default_start_date default_end_date = inr urls →
  let latest := get_latest_filing strftime default_start_date default_end_date
                  get_filings get_section render_get_filing find_all_a
                  convert_html_to_markdown symbol in
  (urls = [] → latest = inl IndexError)
  ∧ (∀ period description url,
       last urls = Some (period, description, url) →
       (∀ form_type, description ≠ value form_type) →
       latest = inl (ValueError "is not a valid FormType"))
  ∧ (∀ text, latest = inr text →
       ∃ period url form_type,
         last urls = Some (period, value form_type, url)
         ∧ form_type ≠ ANY
         ∧ get_form_text get_section render_get_filing find_all_a
                         convert_html_to_markdown url (inl form_type) = inr text).
Proof.
  intros H latest. unfold latest, get_latest_filing. rewrite H.
  split; [by intros ->|]. split.
  - intros period description url -> Hne.
    destruct (FormType_of description) as [e|form_type] eqn:E.
    + unfold FormType_of in E. repeat case_bool_decide; by simplify_eq.
    + apply FormType_of_inr in E. by destruct (Hne form_type).
  - intros text Htext.
    destruct (last urls) as [[[period description] url]|] eqn:Hlast; [|done].
    destruct (FormType_of description) as [e|form_type] eqn:E; [done|].
    apply FormType_of_inr in E. subst description.
    exists period, url, form_type. split; [done|]. split; [|done].
    intros ->. apply get_form_urls_described in H.
    apply last_Some in Hlast as [l' Hl]. rewrite Hl, Forall_app, Forall_singleton in H.
    destruct H as [_ H]. by vm_compute in H.
Qed.

(** ** The sections of a form *)

Lemma dict_set_new k v d : k ∉ map fst d → dict_set k v d = d ++ [(k, v)].
Proof.
  induction d as [|[k' v'] d IH]; intros Hk; simpl; [done|].
  rewrite bool_decide_eq_false_2 by (intros ->; apply Hk; simpl; left).
  rewrite IH; [done|]. intros Hin. apply Hk. simpl. by right.
Qed.

Lemma extract_parts_distinct url type (f : str → str) sections : ∀ parts,
  NoDup (map fst parts ++ sections) →
  (∀ part, part ∈ sections → get_section url part type = inr (f part)) →
  extract_parts get_section url sections type parts
  = inr (parts ++ map (λ part, (part, f part)) sections).
Proof.
  induction sections as [|part sections IH]; intros parts Hnd Hf; simpl.
  - by rewrite app_nil_r.
  - rewrite Hf by left.
    assert (Hnew : part ∉ map fst parts).
    { apply NoDup_app in Hnd as (_ & Hdisj & _). intros Hin.
      apply (Hdisj part Hin). left. }
    rewrite dict_set_new by done. rewrite IH.
    + by rewrite <- app_assoc.
    + rewrite map_app. simpl. by rewrite <- app_assoc.
    + intros p Hp. apply Hf. by right.
Qed.

(** For sections that are pairwise distinct and all extracted,
    [extract_form_text] returns a dictionary with one entry for each, in the
    order of the sections. *)
Theorem extract_form_text_distinct (url type : str) (f : str → str) sections :
  NoDup sections →
  (∀ part, part ∈ sections → get_section url part type = inr (f part)) →
  extract_form_text get_section url sections type
  = inr (map (λ part, (part, f part)) sections).
Proof.
  intros Hnd Hf. unfold extract_form_text.
  by rewrite (extract_parts_distinct url type f sections []).
Qed.

(** The text of a quarterly or annual form is that of its 11, respectively
    19, sections in the order of the catalog, joined by line feeds, when
    every section is extracted; nothing else is fetched. *)
Theorem get_form_text_sections (url : str) (f : str → str) form_type :
  form_type = TENQ ∨ form_type = TENK →
  (∀ part, part ∈ catalog form_type → get_section url part (lit "text") = inr (f part)) →
  get_form_text get_section render_get_filing find_all_a convert_html_to_markdown
                url (inl form_type)
  = inr (join [10%N] (map f (catalog form_type)))
  ∧ length (catalog TENQ) = 11%nat ∧ length (catalog TENK) = 19%nat.
Proof.
  intros Hcase Hf. split; [|done].
  assert (Hq : NoDup sections_10q) by (apply (bool_decide_unpack _); by vm_compute).
  assert (Hk : NoDup sections_10k) by (apply (bool_decide_unpack _); by vm_compute).
  destruct Hcase as [->| ->]; unfold get_form_text; cbn [catalog] in *;
    unfold extract_form_text;
    rewrite (extract_parts_distinct url (lit "text") f _ []) by done;
    cbn [app]; by rewrite map_map.
Qed.

End EdgarHelpersProperties.

(** * Runs on the concrete collaborators *)

Import Demo.

(** The three shapes of input on a byte-level tokenizer: the trailing
    fragment is counted for a list of messages and for a string, and is not
    for a list of dictionaries. *)
Example calculate_tokens_shapes :
  let self := executor "gpt-4" None in
  let count := calculate_tokens byte_encoding plain_dumps self in
  (count (InDicts greeting) "" (world [])).1 = inr 35
  ∧ (count (InDicts greeting) "and more" (world [])).1 = inr 35
  ∧ (count (InMessages [User (mkContent "hi")]) "" (world [])).1 = inr 68
  ∧ (count (InMessages [User (mkContent "hi")]) "and more" (world [])).1 = inr 76
  ∧ (count (InStr "hi") "" (world [])).1 = inr 2
  ∧ (count (InStr "hi") "and more" (world [])).1 = inr 10.
Proof. vm_compute. repeat split. Qed.

(** A chat-format call with a function sends it along. *)
Example execute_direct_sends_functions :
  dispatches
    (trace (execute_direct byte_encoding plain_dumps (answering "4")
              (executor default_model None) greeting [search_function]
              default_model 1024 default_temperature true (world [])).2)
  = [mkRequest ChatCompletion default_model default_temperature 1024
               (Some [search_function]) greeting].
Proof. vm_compute. reflexivity. Qed.

(** Two system messages among three others: the later one goes first, the
    earlier one is dropped, the others keep their order. *)
Example outgoing_two_system_messages :
  outgoing [User (mkContent "a"); System (mkContent "s1"); User (mkContent "b");
            System (mkContent "s2"); Assistant_default (mkContent "c")]
  = map to_dict [System (mkContent "s2"); User (mkContent "a"); User (mkContent "b");
                 Assistant_default (mkContent "c")].
Proof. reflexivity. Qed.

(** A conversation of one user message: the default system message is put
    in front, one request is sent, and its answer is the result. *)
Example execute_one_user_message :
  let run := execute byte_encoding plain_dumps (answering "4")
                     (executor default_model (Some 2%positive)) 1%positive
                     default_temperature 2048 (world conversation) in
  outgoing conversation
  = map to_dict [System (mkContent "You are a helpful assistant.");
                 User (mkContent "What is 2+2?")]
  ∧ dispatches (trace run.2) = [sent_request conversation default_temperature 2048]
  ∧ ∃ a, run.1 = inr a ∧ message_of a = mkContent "4" ∧ is_error a = false.
Proof.
  intros run. split; [reflexivity|]. split; [vm_compute; reflexivity|].
  eexists. split; [vm_compute; reflexivity|]. split; reflexivity.
Qed.

Lemma execute_empty_conversation_witness :
  let self := executor default_model (Some 2%positive) in
  heap (world []) !! 1%positive = Some (OMessages [])
  ∧ cache_miss self [] (world [])
  ∧ execute byte_encoding plain_dumps (answering "4") self 1%positive
            default_temperature 2048 (world [])
    = (inl IndexError, world [])
  ∧ outgoing [] = [to_dict (System (mkContent "You are a helpful assistant."))].
Proof.
  intros self.
  assert (h1 : heap (world []) !! 1%positive = Some (OMessages [])) by reflexivity.
  assert (h2 : cache_miss self [] (world [])) by (exists ∅; split; reflexivity).
  exact (conj h1 (conj h2
    (execute_empty_conversation byte_encoding plain_dumps (answering "4") self
       1%positive default_temperature 2048 (world []) h1 h2))).
Defined.

Lemma execute_direct_prompt_too_long_witness :
  let self := executor "gpt-4" None in
  let w1 := mkWorld (heap (world [])) [EvTokenCount "gpt-4" (InDicts greeting) ""] in
  calculate_tokens byte_encoding plain_dumps self (InDicts greeting) "" (world [])
  = (inr 35, w1)
  ∧ 35 + 4000 + 256 > max_tokens self
  ∧ execute_direct byte_encoding plain_dumps (answering "4") self greeting []
                   default_model 4000 default_temperature true (world [])
    = (inl (Exception
              ("Prompt too long, message tokens: 35, completion tokens: 4000"
               +:+ " total tokens: 4035, available tokens: 4096")), w1)
  ∧ dispatches (trace w1) = dispatches (trace (world [])).
Proof.
  intros self w1.
  assert (h1 : calculate_tokens byte_encoding plain_dumps self (InDicts greeting) ""
                 (world []) = (inr 35, w1)) by reflexivity.
  assert (h2 : 35 + 4000 + 256 > max_tokens self) by reflexivity.
  exact (conj h1 (conj h2
    (execute_direct_prompt_too_long byte_encoding plain_dumps (answering "4") self
       greeting [] default_model 4000 default_temperature true (world []) 35 w1 h1 h2))).
Defined.

Lemma execute_direct_functions_non_chat_witness :
  let self := executor default_model None in
  let w1 := mkWorld (heap (world [])) [EvTokenCount default_model (InDicts greeting) ""] in
  calculate_tokens byte_encoding plain_dumps self (InDicts greeting) "" (world [])
  = (inr 35, w1)
  ∧ 35 + 1024 + 256 ≤ max_tokens self
  ∧ [search_function] ≠ []
  ∧ execute_direct byte_encoding plain_dumps (answering "4") self greeting
                   [search_function] default_model 1024 default_temperature false
                   (world [])
    = (inl (Exception "Functions are not supported in non-chat format"), w1)
  ∧ dispatches (trace w1) = dispatches (trace (world [])).
Proof.
  intros self w1.
  assert (h1 : calculate_tokens byte_encoding plain_dumps self (InDicts greeting) ""
                 (world []) = (inr 35, w1)) by reflexivity.
  assert (h2 : 35 + 1024 + 256 ≤ max_tokens self) by (vm_compute; discriminate).
  assert (h3 : [search_function] ≠ []) by discriminate.
  exact (conj h1 (conj h2 (conj h3
    (execute_direct_functions_non_chat byte_encoding plain_dumps (answering "4") self
       greeting [search_function] default_model 1024 default_temperature (world [])
       35 w1 h1 h2 h3)))).
Defined.

Lemma execute_direct_functions_field_witness :
  let self := executor default_model None in
  let w1 := mkWorld (heap (world [])) [EvTokenCount default_model (InDicts greeting) ""] in
  calculate_tokens byte_encoding plain_dumps self (InDicts greeting) "" (world [])
  = (inr 35, w1)
  ∧ 35 + 1024 + 256 ≤ max_tokens self
  ∧ ∃ req,
      execute_direct byte_encoding plain_dumps (answering "4") self greeting []
                     default_model 1024 default_temperature true (world [])
      = (answering "4" (trace w1) req, mkWorld (heap w1) (trace w1 ++ [EvDispatch req]))
      ∧ dispatches (trace w1 ++ [EvDispatch req]) = dispatches (trace (world [])) ++ [req]
      ∧ req_endpoint req = ChatCompletion
      ∧ req_messages req = greeting
      ∧ (is_Some (req_functions req) ↔ [] ≠ ([] : list Dict))
      ∧ (∀ fs, req_functions req = Some fs → fs = [])
      ∧ req_functions req ≠ Some [].
Proof.
  intros self w1.
  assert (h1 : calculate_tokens byte_encoding plain_dumps self (InDicts greeting) ""
                 (world []) = (inr 35, w1)) by reflexivity.
  assert (h2 : 35 + 1024 + 256 ≤ max_tokens self) by (vm_compute; discriminate).
  exact (conj h1 (conj h2
    (execute_direct_functions_field byte_encoding plain_dumps (answering "4") self
       greeting [] default_model 1024 default_temperature (world []) 35 w1 h1 h2))).
Defined.

Lemma execute_empty_response_witness :
  let self := executor default_model (Some 2%positive) in
  let w := world conversation in
  let run := execute byte_encoding plain_dumps silent self 1%positive
                     default_temperature 2048 w in
  let sent := [EvTokenCount default_model (InDicts (outgoing conversation)) ""] in
  let req := sent_request conversation default_temperature 2048 in
  heap w !! 1%positive = Some (OMessages conversation)
  ∧ cache_miss self conversation w
  ∧ run = (run.1, run.2)
  ∧ trace run.2 = trace w ++ sent ++ [EvDispatch req]
  ∧ silent (trace w ++ sent) req = inr ∅
  ∧ size (∅ : Response) = 0%nat
  ∧ run.1 = inr (Assistant (mkContent "The model could not execute the query.") true
                           (map shallow (kept conversation))
                           (Some (system_of conversation)))
  ∧ map to_dict (map shallow (kept conversation)) = req_messages req
  ∧ ∀ l o, heap w !! l = Some o → heap run.2 !! l = Some o.
Proof.
  intros self w run sent req.
  assert (h1 : heap w !! 1%positive = Some (OMessages conversation)) by reflexivity.
  assert (h2 : cache_miss self conversation w) by (exists ∅; split; reflexivity).
  assert (h3 : run = (run.1, run.2)) by (vm_compute; reflexivity).
  assert (h4 : trace run.2 = trace w ++ sent ++ [EvDispatch req])
    by (vm_compute; reflexivity).
  assert (h5 : silent (trace w ++ sent) req = inr ∅) by reflexivity.
  assert (h6 : size (∅ : Response) = 0%nat) by reflexivity.
  exact (conj h1 (conj h2 (conj h3 (conj h4 (conj h5 (conj h6
    (execute_empty_response byte_encoding plain_dumps silent self 1%positive
       default_temperature 2048 w conversation run.1 run.2 sent req ∅
       h1 h2 h3 h4 h5 h6))))))).
Defined.

(** A reply that has a [choices] entry with no choice in it is not the empty
    dictionary: [execute] goes on to read [choices][0] and raises. *)
Lemma execute_zero_choices_raises :
  let self := executor default_model (Some 2%positive) in
  let w := world conversation in
  let run := execute byte_encoding plain_dumps choiceless self 1%positive
                     default_temperature 2048 w in
  let sent := [EvTokenCount default_model (InDicts (outgoing conversation)) ""] in
  let req := sent_request conversation default_temperature 2048 in
  heap w !! 1%positive = Some (OMessages conversation)
  ∧ cache_miss self conversation w
  ∧ trace run.2 = trace w ++ sent ++ [EvDispatch req]
  ∧ choiceless (trace w ++ sent) req = inr choiceless_reply
  ∧ zero_choices choiceless_reply
  ∧ run.1 = inl IndexError.
Proof.
  intros self w run sent req.
  split; [reflexivity|]. split; [exists ∅; split; reflexivity|].
  split; [vm_compute; reflexivity|]. split; [reflexivity|].
  split; [exact I|]. vm_compute. reflexivity.
Qed.

Lemma execute_twice_witness :
  let self := executor default_model (Some 2%positive) in
  let w := world conversation in
  let run := execute byte_encoding plain_dumps (answering "4") self 1%positive
                     default_temperature 2048 w in
  let a := Assistant (mkContent "4") false
             [System (mkContent "You are a helpful assistant.");
              User (mkContent "What is 2+2?");
              Assistant (mkContent "4") false [] None] None in
  heap w !! 1%positive = Some (OMessages conversation)
  ∧ is_Some (cache self)
  ∧ cache_miss self conversation w
  ∧ run = (inr a, run.2)
  ∧ is_error a = false
  ∧ dispatches (trace run.2)
    = dispatches (trace w) ++ [sent_request conversation default_temperature 2048]
  ∧ cache_hit self conversation a run.2
  ∧ heap run.2 !! 1%positive = Some (OMessages conversation)
  ∧ ∀ r' msgs' temp' mct',
      heap run.2 !! r' = Some (OMessages msgs') →
      fingerprint msgs' = fingerprint conversation →
      execute byte_encoding plain_dumps (answering "4") self r' temp' mct' run.2
      = (inr a, run.2).
Proof.
  intros self w run a.
  assert (h1 : heap w !! 1%positive = Some (OMessages conversation)) by reflexivity.
  assert (h2 : is_Some (cache self)) by (exists 2%positive; reflexivity).
  assert (h3 : cache_miss self conversation w) by (exists ∅; split; reflexivity).
  assert (h4 : run = (inr a, run.2)) by (vm_compute; reflexivity).
  assert (h5 : is_error a = false) by reflexivity.
  exact (conj h1 (conj h2 (conj h3 (conj h4 (conj h5
    (execute_twice byte_encoding plain_dumps (answering "4") self 1%positive
       default_temperature 2048 w conversation a run.2 h1 h2 h3 h4 h5)))))).
Defined.

Lemma execute_keeps_conversation_witness :
  let self := executor default_model (Some 2%positive) in
  let w := world conversation in
  let run := execute byte_encoding plain_dumps (answering "4") self 1%positive
                     default_temperature 2048 w in
  heap w !! 1%positive = Some (OMessages conversation)
  ∧ run = (run.1, run.2)
  ∧ heap run.2 !! 1%positive = Some (OMessages conversation)
  ∧ ∀ a o, heap w !! a = Some o → is_list o → heap run.2 !! a = Some o.
Proof.
  intros self w run.
  assert (h1 : heap w !! 1%positive = Some (OMessages conversation)) by reflexivity.
  assert (h2 : run = (run.1, run.2)) by (vm_compute; reflexivity).
  exact (conj h1 (conj h2
    (execute_keeps_conversation byte_encoding plain_dumps (answering "4") self
       1%positive default_temperature 2048 w conversation run.1 run.2 h1 h2))).
Defined.

Lemma execute_request_ignores_model_witness :
  let self1 := executor "gpt-3.5-turbo-16k-0613" None in
  let self2 := executor "gpt-4" None in
  let w := world conversation in
  let run1 := execute byte_encoding plain_dumps (answering "4") self1 1%positive
                      default_temperature 2048 w in
  let run2 := execute byte_encoding plain_dumps (answering "4") self2 1%positive
                      default_temperature 2048 w in
  let req := sent_request conversation default_temperature 2048 in
  heap w !! 1%positive = Some (OMessages conversation)
  ∧ cache_miss self1 conversation w
  ∧ cache_miss self2 conversation w
  ∧ run1 = (run1.1, run1.2)
  ∧ run2 = (run2.1, run2.2)
  ∧ dispatches (trace run1.2) = dispatches (trace w) ++ [req]
  ∧ dispatches (trace run2.2) = dispatches (trace w) ++ [req]
  ∧ req_model req = "gpt-3.5-turbo-16k-0613"
  ∧ req = req
  ∧ token_counts (trace run1.2) = token_counts (trace w) ++ ["gpt-3.5-turbo-16k-0613"]
  ∧ token_counts (trace run2.2) = token_counts (trace w) ++ ["gpt-4"].
Proof.
  intros self1 self2 w run1 run2 req.
  assert (h1 : heap w !! 1%positive = Some (OMessages conversation)) by reflexivity.
  assert (h2 : cache_miss self1 conversation w) by exact I.
  assert (h3 : cache_miss self2 conversation w) by exact I.
  assert (h4 : run1 = (run1.1, run1.2)) by (vm_compute; reflexivity).
  assert (h5 : run2 = (run2.1, run2.2)) by (vm_compute; reflexivity).
  assert (h6 : dispatches (trace run1.2) = dispatches (trace w) ++ [req])
    by (vm_compute; reflexivity).
  assert (h7 : dispatches (trace run2.2) = dispatches (trace w) ++ [req])
    by (vm_compute; reflexivity).
  exact (conj h1 (conj h2 (conj h3 (conj h4 (conj h5 (conj h6 (conj h7
    (execute_request_ignores_model byte_encoding plain_dumps (answering "4")
       self1 self2 1%positive default_temperature 2048 w conversation
       run1.1 run1.2 run2.1 run2.2 req req h1 h2 h3 h4 h5 h6 h7)))))))).
Defined.

(** ** Runs for the further properties of the executor *)

Lemma execute_outgoing_witness :
  let self := executor default_model (Some 2%positive) in
  let w := world conversation in
  let run := execute byte_encoding plain_dumps (answering "4") self 1%positive
                     default_temperature 2048 w in
  heap w !! 1%positive = Some (OMessages conversation)
  ∧ conversation ≠ []
  ∧ cache_miss self conversation w
  ∧ run = (run.1, run.2)
  ∧ (trace run.2
     = trace w ++ [EvTokenCount (model self) (InDicts (outgoing conversation)) ""]
     ∨ trace run.2
       = trace w ++ [EvTokenCount (model self) (InDicts (outgoing conversation)) "";
                     EvDispatch (sent_request conversation default_temperature 2048)])
  ∧ ∃ rest, outgoing conversation = to_dict (system_of conversation) :: rest
            ∧ rest = map to_dict (List.filter (λ m, negb (is_system m)) conversation)
            ∧ dict_is_system (to_dict (system_of conversation)) = true
            ∧ Forall (λ d, dict_is_system d = false) rest.
Proof.
  intros self w run.
  assert (h1 : heap w !! 1%positive = Some (OMessages conversation)) by reflexivity.
  assert (h2 : conversation ≠ []) by discriminate.
  assert (h3 : cache_miss self conversation w) by (exists ∅; split; reflexivity).
  assert (h4 : run = (run.1, run.2)) by (vm_compute; reflexivity).
  exact (conj h1 (conj h2 (conj h3 (conj h4
    (execute_outgoing byte_encoding plain_dumps (answering "4") self 1%positive
       default_temperature 2048 w conversation run.1 run.2 h1 h2 h3 h4))))).
Defined.

Lemma execute_direct_budget_exhausted_witness :
  let self := executor "gpt-4" None in
  let w1 := mkWorld (heap (world [])) [EvTokenCount "gpt-4" (InDicts greeting) ""] in
  4000 > max_tokens self - 256
  ∧ calculate_tokens byte_encoding plain_dumps self (InDicts greeting) "" (world [])
    = (inr 35, w1)
  ∧ execute_direct byte_encoding plain_dumps (answering "4") self greeting
                   [search_function] default_model 4000 default_temperature false
                   (world [])
    = (inl (Exception (prompt_too_long 35 4000 (max_tokens self))), w1)
  ∧ dispatches (trace w1) = dispatches (trace (world [])).
Proof.
  intros self w1.
  assert (h1 : 4000 > max_tokens self - 256) by reflexivity.
  assert (h2 : calculate_tokens byte_encoding plain_dumps self (InDicts greeting) ""
                 (world []) = (inr 35, w1)) by reflexivity.
  exact (conj h1 (conj h2
    (execute_direct_budget_exhausted byte_encoding plain_dumps (answering "4") self
       greeting [search_function] default_model 4000 default_temperature false
       (world []) 35 w1 h1 h2))).
Defined.

Lemma execute_direct_dispatches_iff_witness :
  let self := executor default_model None in
  let w := world [] in
  let run := execute_direct byte_encoding plain_dumps (answering "4") self greeting []
                            default_model 1024 default_temperature true w in
  run = (run.1, run.2)
  ∧ ((∃ req, dispatches (trace run.2) = dispatches (trace w) ++ [req])
     ↔ ∃ n w1, calculate_tokens byte_encoding plain_dumps self (InDicts greeting) "" w
               = (inr n, w1)
               ∧ n + 1024 + 256 ≤ max_tokens self
               ∧ (true = true ∨ ([] : list Dict) = []))
  ∧ (dispatches (trace run.2) = dispatches (trace w)
     ∨ ∃ req, dispatches (trace run.2) = dispatches (trace w) ++ [req]).
Proof.
  intros self w run.
  assert (h1 : run = (run.1, run.2)) by (vm_compute; reflexivity).
  exact (conj h1
    (execute_direct_dispatches_iff byte_encoding plain_dumps (answering "4") self
       greeting [] default_model 1024 default_temperature true w run.1 run.2 h1)).
Defined.

Lemma execute_direct_completion_witness :
  let self := executor default_model None in
  let w1 := mkWorld (heap (world [])) [EvTokenCount default_model (InDicts greeting) ""] in
  let req := mkRequest Completion default_model default_temperature 1024 None greeting in
  calculate_tokens byte_encoding plain_dumps self (InDicts greeting) "" (world [])
  = (inr 35, w1)
  ∧ 35 + 1024 + 256 ≤ max_tokens self
  ∧ execute_direct byte_encoding plain_dumps (answering "4") self greeting []
                   default_model 1024 default_temperature false (world [])
    = (answering "4" (trace w1) req, mkWorld (heap w1) (trace w1 ++ [EvDispatch req]))
  ∧ dispatches (trace w1 ++ [EvDispatch req]) = dispatches (trace (world [])) ++ [req].
Proof.
  intros self w1 req.
  assert (h1 : calculate_tokens byte_encoding plain_dumps self (InDicts greeting) ""
                 (world []) = (inr 35, w1)) by reflexivity.
  assert (h2 : 35 + 1024 + 256 ≤ max_tokens self) by (vm_compute; discriminate).
  exact (conj h1 (conj h2
    (execute_direct_completion byte_encoding plain_dumps (answering "4") self
       greeting default_model 1024 default_temperature (world []) 35 w1 h1 h2))).
Defined.

(** The hit is served for a token limit that no model has room for, by an
    executor whose service is down. *)
Lemma execute_hit_unvalidated_witness :
  let self := executor default_model (Some 2%positive) in
  let a := Assistant (mkContent "four") false [] None in
  let w := cached_world conversation a in
  heap w !! 1%positive = Some (OMessages conversation)
  ∧ cache_hit self conversation a w
  ∧ execute byte_encoding plain_dumps failing self 1%positive default_temperature
            1000000 w
    = (inr a, w).
Proof.
  intros self a w.
  assert (h1 : heap w !! 1%positive = Some (OMessages conversation)) by reflexivity.
  assert (h2 : cache_hit self conversation a w).
  { exists 2%positive, (<[fingerprint conversation := a]> ∅).
    split; [reflexivity|]. split; [reflexivity|]. apply lookup_insert_eq. }
  exact (conj h1 (conj h2
    (execute_hit_unvalidated byte_encoding plain_dumps failing self 1%positive
       default_temperature 1000000 w conversation a h1 h2))).
Defined.

Lemma execute_remote_error_witness :
  let self := executor default_model (Some 2%positive) in
  let w := world conversation in
  let run := execute byte_encoding plain_dumps failing self 1%positive
                     default_temperature 2048 w in
  let sent := [EvTokenCount default_model (InDicts (outgoing conversation)) ""] in
  let req := sent_request conversation default_temperature 2048 in
  heap w !! 1%positive = Some (OMessages conversation)
  ∧ cache_miss self conversation w
  ∧ run = (run.1, run.2)
  ∧ trace run.2 = trace w ++ sent ++ [EvDispatch req]
  ∧ failing (trace w ++ sent) req = inl (RemoteError "timeout")
  ∧ run.1 = inl (RemoteError "timeout")
  ∧ ∀ l o, heap w !! l = Some o → heap run.2 !! l = Some o.
Proof.
  intros self w run sent req.
  assert (h1 : heap w !! 1%positive = Some (OMessages conversation)) by reflexivity.
  assert (h2 : cache_miss self conversation w) by (exists ∅; split; reflexivity).
  assert (h3 : run = (run.1, run.2)) by (vm_compute; reflexivity).
  assert (h4 : trace run.2 = trace w ++ sent ++ [EvDispatch req])
    by (vm_compute; reflexivity).
  assert (h5 : failing (trace w ++ sent) req = inl (RemoteError "timeout"))
    by reflexivity.
  exact (conj h1 (conj h2 (conj h3 (conj h4 (conj h5
    (execute_remote_error byte_encoding plain_dumps failing self 1%positive
       default_temperature 2048 w conversation run.1 run.2 sent req
       (RemoteError "timeout") h1 h2 h3 h4 h5)))))).
Defined.

Lemma execute_reply_without_choice_witness :
  let self := executor default_model (Some 2%positive) in
  let w := world conversation in
  let run := execute byte_encoding plain_dumps choiceless self 1%positive
                     default_temperature 2048 w in
  let sent := [EvTokenCount default_model (InDicts (outgoing conversation)) ""] in
  let req := sent_request conversation default_temperature 2048 in
  heap w !! 1%positive = Some (OMessages conversation)
  ∧ cache_miss self conversation w
  ∧ run = (run.1, run.2)
  ∧ trace run.2 = trace w ++ sent ++ [EvDispatch req]
  ∧ choiceless (trace w ++ sent) req = inr choiceless_reply
  ∧ size choiceless_reply ≠ 0%nat
  ∧ no_first_message choiceless_reply
  ∧ run.1 = inl (match choiceless_reply !! "choices" with
                 | None => KeyError "choices"
                 | Some (FChoices []) => IndexError
                 | Some (FChoices (_ :: _)) => KeyError "message"
                 | Some (FOther v) =>
                     if bool_decide (v = "") then IndexError else TypeError
                 end)
  ∧ ∀ l o, heap w !! l = Some o → heap run.2 !! l = Some o.
Proof.
  intros self w run sent req.
  assert (h1 : heap w !! 1%positive = Some (OMessages conversation)) by reflexivity.
  assert (h2 : cache_miss self conversation w) by (exists ∅; split; reflexivity).
  assert (h3 : run = (run.1, run.2)) by (vm_compute; reflexivity).
  assert (h4 : trace run.2 = trace w ++ sent ++ [EvDispatch req])
    by (vm_compute; reflexivity).
  assert (h5 : choiceless (trace w ++ sent) req = inr choiceless_reply) by reflexivity.
  assert (h6 : size choiceless_reply ≠ 0%nat) by (vm_compute; discriminate).
  assert (h7 : no_first_message choiceless_reply) by exact I.
  exact (conj h1 (conj h2 (conj h3 (conj h4 (conj h5 (conj h6 (conj h7
    (execute_reply_without_choice byte_encoding plain_dumps choiceless self 1%positive
       default_temperature 2048 w conversation run.1 run.2 sent req choiceless_reply
       h1 h2 h3 h4 h5 h6 h7)))))))).
Defined.

(** The four ways in which [chat_response['choices'][0]['message']] fails
    on a reply that is not empty: no list of choices but an empty text, or
    another text; no [choices] entry; a first choice without [message]. *)
Example execute_malformed_choices :
  let run := λ chat_response,
    (execute byte_encoding plain_dumps (replying chat_response)
             (executor default_model (Some 2%positive)) 1%positive
             default_temperature 2048 (world conversation)).1 in
  run (<["choices" := FOther ""]> ∅) = inl IndexError
  ∧ run (<["choices" := FOther "none"]> ∅) = inl TypeError
  ∧ run (<["model" := FOther "gpt-4"]> ∅) = inl (KeyError "choices")
  ∧ run (<["choices" := FChoices [mkChoice None]]> ∅) = inl (KeyError "message").
Proof. vm_compute. repeat split. Qed.



(** * Runs of the helpers *)

Section HelperRuns.
Import PyStr WebHelpers EdgarHelpers HelperDemo.

(** Repeated blank lines are merged, and a line that only holds a [div] tag
    is dropped without closing the run of blank lines around it. *)
Example clean_markdown_run :
  clean_markdown (lit "a" ++ [10; 10]%N ++ lit "<div>" ++ [10; 10]%N ++ lit "b" ++ [10]%N)
  = lit "a" ++ [10; 10]%N ++ lit "b".
Proof. vm_compute. reflexivity. Qed.

(** One application of [clean_markdown] is not enough to reach a text that
    it leaves as it is: a blank line that ends the text takes two. *)
Example clean_markdown_not_idempotent :
  let once := clean_markdown (lit "a" ++ [10; 10]%N) in
  once = lit "a" ++ [10]%N
  ∧ clean_markdown once = lit "a"
  ∧ clean_markdown once ≠ once.
Proof. vm_compute. repeat split. discriminate. Qed.

(** Of three results, the one without a link and the one whose page cannot
    be parsed leave no trace in the text. *)
Example search_helper_run :
  search_helper (lit "llm") searcher parser = inr (lit "text of https://example.com/a").
Proof. vm_compute. reflexivity. Qed.

Lemma search_helper_texts_witness :
  searcher (lit "llm") = inr results
  ∧ search_helper (lit "llm") searcher parser
    = inr (join (lit " ") (omap (parsed_text parser) results)).
Proof.
  assert (h1 : searcher (lit "llm") = inr results) by reflexivity.
  exact (conj h1 (search_helper_texts (lit "llm") searcher parser results h1)).
Defined.

Lemma search_linkedin_profile_choice_witness :
  let first_url := lit "https://example.com/jane" in
  let urls := [lit "https://www.linkedin.com/in/jane"] in
  profile_searcher (lit "Jane" ++ lit " " ++ lit "Doe" ++ lit " " ++ lit "Acme"
                    ++ lit " site:linkedin.com/in/") = inr profile_links
  ∧ map (item "link") profile_links = map inr (first_url :: urls)
  ∧ search_linkedin_profile profile_searcher profile (lit "Jane") (lit "Doe") (lit "Acme")
    = profile (default first_url
                 (List.find (contains (lit "linkedin.com")) (first_url :: urls))).
Proof.
  intros first_url urls.
  assert (h1 : profile_searcher (lit "Jane" ++ lit " " ++ lit "Doe" ++ lit " "
                                 ++ lit "Acme" ++ lit " site:linkedin.com/in/")
               = inr profile_links) by reflexivity.
  assert (h2 : map (item "link") profile_links = map inr (first_url :: urls))
    by (vm_compute; reflexivity).
  exact (conj h1 (conj h2
    (search_linkedin_profile_choice profile_searcher profile (lit "Jane") (lit "Doe")
       (lit "Acme") profile_links first_url urls h1 h2))).
Defined.

Lemma get_form_text_marshal_witness :
  (∀ form_type, lit "S-1" ≠ value form_type)
  ∧ get_form_text get_section render_get_filing find_all_a to_markdown
                  (lit "https://www.sec.gov/Archives/q.htm") (inr (lit "S-1"))
    = inl (ValueError "is not a valid FormType").
Proof.
  assert (h1 : ∀ form_type, lit "S-1" ≠ value form_type)
    by (intros form_type; destruct form_type; discriminate).
  exact (conj h1
    (proj2 (get_form_text_marshal get_section render_get_filing find_all_a to_markdown
              (lit "https://www.sec.gov/Archives/q.htm")) (lit "S-1") h1)).
Defined.

Lemma get_form_urls_descriptions_witness :
  let rows := [(lit "2023-03-31", lit "10-Q", lit "https://www.sec.gov/Archives/q.htm")] in
  get_form_urls strftime get_filings (lit "MSFT") (Some EIGHTK) 2023 2024 = inr rows
  ∧ Forall (λ row, names_a_form (row_description row)) rows.
Proof.
  intros rows.
  assert (h1 : get_form_urls strftime get_filings (lit "MSFT") (Some EIGHTK) 2023 2024
               = inr rows) by (vm_compute; reflexivity).
  exact (conj h1
    (get_form_urls_descriptions Z strftime get_filings (lit "MSFT") (Some EIGHTK)
       2023 2024 rows h1)).
Defined.

Lemma get_latest_form_text_any_witness :
  let rows := [(lit "2023-03-31", lit "10-Q", lit "https://www.sec.gov/Archives/q.htm")] in
  get_form_urls strftime get_filings (lit "MSFT") (Some ANY) 2023 2024 = inr rows
  ∧ get_latest_form_text strftime 2023 2024 get_filings get_section render_get_filing
                         find_all_a to_markdown (lit "MSFT") ANY
    = inr [].
Proof.
  intros rows.
  assert (h1 : get_form_urls strftime get_filings (lit "MSFT") (Some ANY) 2023 2024
               = inr rows) by (vm_compute; reflexivity).
  exact (conj h1
    (get_latest_form_text_any Z strftime 2023 2024 get_filings get_section
       render_get_filing find_all_a to_markdown (lit "MSFT") rows h1)).
Defined.

Lemma get_latest_filing_last_witness :
  let rows := [(lit "2023-03-31", lit "10-Q", lit "https://www.sec.gov/Archives/q.htm")] in
  let latest := get_latest_filing strftime 2023 2024 get_filings get_section
                                  render_get_filing find_all_a to_markdown (lit "MSFT") in
  get_form_urls strftime get_filings (lit "MSFT") None 2023 2024 = inr rows
  ∧ (rows = [] → latest = inl IndexError)
  ∧ (∀ period description url,
       last rows = Some (period, description, url) →
       (∀ form_type, description ≠ value form_type) →
       latest = inl (ValueError "is not a valid FormType"))
  ∧ (∀ text, latest = inr text →
       ∃ period url form_type,
         last rows = Some (period, value form_type, url)
         ∧ form_type ≠ ANY
         ∧ get_form_text get_section render_get_filing find_all_a to_markdown
                         url (inl form_type) = inr text).
Proof.
  intros rows latest.
  assert (h1 : get_form_urls strftime get_filings (lit "MSFT") None 2023 2024 = inr rows)
    by (vm_compute; reflexivity).
  exact (conj h1
    (get_latest_filing_last Z strftime 2023 2024 get_filings get_section
       render_get_filing find_all_a to_markdown (lit "MSFT") rows h1)).
Defined.

Lemma extract_form_text_distinct_witness :
  let url := lit "https://www.sec.gov/Archives/k.htm" in
  let f := λ part : str, part ++ lit " of " ++ url in
  let sections := [lit "1"; lit "1A"; lit "7"] in
  NoDup sections
  ∧ (∀ part, part ∈ sections → get_section url part (lit "text") = inr (f part))
  ∧ extract_form_text get_section url sections (lit "text")
    = inr (map (λ part, (part, f part)) sections).
Proof.
  intros url f sections.
  assert (h1 : NoDup sections) by (apply (bool_decide_unpack _); vm_compute; exact I).
  assert (h2 : ∀ part, part ∈ sections → get_section url part (lit "text") = inr (f part))
    by (intros part _; reflexivity).
  exact (conj h1 (conj h2
    (extract_form_text_distinct get_section url (lit "text") f sections h1 h2))).
Defined.

Lemma get_form_text_sections_witness :
  let url := lit "https://www.sec.gov/Archives/q.htm" in
  let f := λ part : str, part ++ lit " of " ++ url in
  (TENQ = TENQ ∨ TENQ = TENK)
  ∧ (∀ part, part ∈ catalog TENQ → get_section url part (lit "text") = inr (f part))
  ∧ get_form_text get_section render_get_filing find_all_a to_markdown url (inl TENQ)
    = inr (join [10%N] (map f (catalog TENQ)))
  ∧ length (catalog TENQ) = 11%nat ∧ length (catalog TENK) = 19%nat.
Proof.
  intros url f.
  assert (h1 : TENQ = TENQ ∨ TENQ = TENK) by (left; reflexivity).
  assert (h2 : ∀ part, part ∈ catalog TENQ
                       → get_section url part (lit "text") = inr (f part))
    by (intros part _; reflexivity).
  exact (conj h1 (conj h2
    (get_form_text_sections get_section render_get_filing find_all_a to_markdown
       url f TENQ h1 h2))).
Defined.

End HelperRuns.
